(** * Row-partitioned image resampling and filtering (main.cpp)

    A shallow embedding of the three computational parts of main.cpp:
    [resize_rows], [apply_filter], and the row/byte-count arithmetic that
    [main] performs around the scatter and gather collectives.

    Modelling conventions.
    - A C++ [int] is a [Z].  [/] and [%] on [int] truncate toward zero, so
      they are [Z.quot] and [Z.rem]; a zero divisor is undefined behaviour
      and makes the model return [None].  Signed overflow is undefined
      behaviour as well: the products and sums of [resize_rows], of line
      136, of the gather tables and of the size of the output buffer go
      through [Cxx.int], which is [None] outside the range of a 32-bit
      [int].  The row split of lines 115-131 and the loop bound of
      [apply_filter] never exceed the number of bytes of the image in
      memory, and are computed exactly.
    - An [unsigned char] is a [Byte.byte]; a [std::vector] is a [list].
      [operator[]] outside the vector is undefined behaviour: [None].
    - A [float] is an IEEE-754 binary32 value ([spec_float] with 24 bits of
      precision), operations round to nearest-even, and every [float]
      expression is evaluated in binary32.
    - Every function that can go wrong returns an [option]; [None] stands
      for "the C++ program has no defined result". *)

From Stdlib Require Import ZArith Lia QArith Qround.
From Stdlib.Strings Require Import Byte.
From Stdlib Require Import Floats.SpecFloat.
From stdpp Require Import base option list list_numbers strings.

Open Scope Z_scope.

(** ** Machine-level helpers *)

Module Cxx.

(** [a / b] on [int]. *)
Definition div (a b : Z) : option Z :=
  if decide (b = 0) then None else Some (a ÷ b).

(** [a % b] on [int]. *)
Definition rem (a b : Z) : option Z :=
  if decide (b = 0) then None else Some (Z.rem a b).

(** Integral promotion of an [unsigned char]. *)
Definition uchar_to_int (b : byte) : Z := Z.of_N (Byte.to_N b).

(** Conversion of an [int] to [unsigned char]: reduction modulo 256. *)
Definition int_to_uchar (z : Z) : byte :=
  default x00 (Byte.of_N (Z.to_N (z mod 256))).

(** [v[i]] as an rvalue. *)
Definition vec_get {A} (v : list A) (i : Z) : option A :=
  if decide (0 <= i) then v !! Z.to_nat i else None.

(** [v[i] = x]. *)
Definition vec_set {A} (v : list A) (i : Z) (x : A) : option (list A) :=
  if decide (0 <= i < Z.of_nat (length v))
  then Some (<[Z.to_nat i := x]> v) else None.

(** [std::vector<T> v(n)]: [n] value-initialised elements.  A negative
    [int] converts to a huge [size_t] and the constructor throws. *)
Definition vec_make {A} (n : Z) (zero : A) : option (list A) :=
  if decide (0 <= n) then Some (replicate (Z.to_nat n) zero) else None.

(** The range of a 32-bit [int]. *)
Definition INT_MAX : Z := 2147483647.
Definition INT_MIN : Z := -2147483648.

(** The value of an [int] expression whose exact result is [z]: undefined
    when [z] does not fit. *)
Definition int (z : Z) : option Z :=
  if decide (INT_MIN <= z <= INT_MAX) then Some z else None.

(** [n] iterations of [body], the counter starting at [i]. *)
Fixpoint for_range {S} (n : nat) (i : Z) (body : Z → S → option S) (s : S)
  : option S :=
  match n with
  | O => Some s
  | S n' => s' ← body i s; for_range n' (i + 1) body s'
  end.

(** [for (int i = 0; i < hi; ++i) body]. *)
Definition for_upto {S} (hi : Z) (body : Z → S → option S) (s : S)
  : option S :=
  for_range (Z.to_nat hi) 0 body s.

End Cxx.

(** ** Single-precision arithmetic *)

Module F32.

Definition prec : Z := 24.
Definition emax : Z := 128.

Definition mul : spec_float → spec_float → spec_float := SFmul prec emax.
Definition add : spec_float → spec_float → spec_float := SFadd prec emax.

(** Conversion [int] to [float]. *)
Definition of_int (z : Z) : spec_float := binary_normalize prec emax z 0 false.

(** The literal [1.2f]: the binary32 number nearest to 1.2,
    10066330 * 2^-23. *)
Definition lit_1_2 : spec_float := S754_finite false 10066330 (-23).

(** [static_cast<int>(f)]: truncation toward zero; undefined for NaN,
    infinities and values outside the range of [int]. *)
Definition to_int (f : spec_float) : option Z :=
  match f with
  | S754_zero _ => Some 0
  | S754_finite s m e =>
      let mag := if decide (0 <= e) then Z.pos m * 2 ^ e
                 else Z.pos m / 2 ^ (- e) in
      let v := if s then - mag else mag in
      if decide (- 2 ^ 31 <= v < 2 ^ 31) then Some v else None
  | _ => None
  end.

End F32.

(** ** [resize_rows] *)

(** Offset of byte [(y, x, c)] in a row-major, channel-interleaved block
    that is [width] pixels wide. *)
Definition flat_index (width channels y x c : Z) : Z :=
  (y * width + x) * channels + c.

(** [(y * width + x) * channels + c] as the [int] expression it is in the
    source: every intermediate result has to fit. *)
Definition int_index (width channels y x c : Z) : option Z :=
  r ← Cxx.int (y * width);
  p ← Cxx.int (r + x);
  i ← Cxx.int (p * channels);
  Cxx.int (i + c).

Definition resize_rows (data : list byte)
    (width inHeight outHeight channels : Z) : option (list byte) :=
  n ← Cxx.int (width * outHeight);
  n ← Cxx.int (n * channels);
  out ← Cxx.vec_make n x00;
  Cxx.for_upto outHeight (λ y out,
    p ← Cxx.int (y * inHeight);
    q ← Cxx.div p outHeight;
    srcY ← Cxx.int q;
    Cxx.for_upto width (λ x out,
      Cxx.for_upto channels (λ c out,
        dst ← int_index width channels y x c;
        src ← int_index width channels srcY x c;
        b ← Cxx.vec_get data src;
        Cxx.vec_set out dst b) out) out) out.

(** The invariant of the three nested loops of [resize_rows]: the output
    vector has its final size, and every byte whose offset is below [m] has
    been copied from the pixel of the source row. *)
Definition resized_upto (data out : list byte)
    (width inHeight outHeight channels m : Z) : Prop :=
  Z.of_nat (length out) = width * outHeight * channels
  ∧ ∀ y x c, 0 <= y < outHeight → 0 <= x < width → 0 <= c < channels →
      flat_index width channels y x c < m →
      ∃ b, data !! Z.to_nat (flat_index width channels ((y * inHeight) ÷ outHeight) x c) = Some b
           ∧ out !! Z.to_nat (flat_index width channels y x c) = Some b.

(** ** [apply_filter] *)

(** [255 - data[i]] *)
Definition invert_pixel (b : byte) : byte :=
  Cxx.int_to_uchar (255 - Cxx.uchar_to_int b).

(** [val = data[i] + 50; (val > 255) ? 255 : val] *)
Definition brightness_pixel (b : byte) : byte :=
  let val := Cxx.uchar_to_int b + 50 in
  Cxx.int_to_uchar (if decide (val > 255) then 255 else val).

(** [static_cast<int>((data[i] - 128) * factor + 128)] with
    [float factor = 1.2f]. *)
Definition contrast_val (b : byte) : option Z :=
  F32.to_int
    (F32.add (F32.mul (F32.of_int (Cxx.uchar_to_int b - 128)) F32.lit_1_2)
             (F32.of_int 128)).

(** [if (val < 0) val = 0; if (val > 255) val = 255;] *)
Definition clamp_0_255 (val : Z) : Z :=
  let val := if decide (val < 0) then 0 else val in
  if decide (val > 255) then 255 else val.

Definition contrast_pixel (b : byte) : option byte :=
  val ← contrast_val b;
  Some (Cxx.int_to_uchar (clamp_0_255 val)).

(** [for (int i = 0; i < n; ++i) data[i] = f(data[i]);] *)
Definition pixel_loop (f : byte → option byte) (n : Z) (data : list byte)
  : option (list byte) :=
  Cxx.for_upto n (λ i data,
    b ← Cxx.vec_get data i;
    v ← f b;
    Cxx.vec_set data i v) data.

Definition apply_filter (data : list byte) (width height channels : Z)
    (filterType : string) : option (list byte) :=
  if decide (filterType = "invert") then
    pixel_loop (λ b, Some (invert_pixel b)) (width * height * channels) data
  else if decide (filterType = "brightness") then
    pixel_loop (λ b, Some (brightness_pixel b)) (width * height * channels) data
  else if decide (filterType = "contrast") then
    pixel_loop contrast_pixel (width * height * channels) data
  else Some data.

(** The byte-wise function that [apply_filter] is shown to map over a
    block whose size matches its dimensions ([apply_filter_map]). *)
Definition filter_pixel (filterType : string) (b : byte) : byte :=
  if decide (filterType = "invert") then invert_pixel b
  else if decide (filterType = "brightness") then brightness_pixel b
  else if decide (filterType = "contrast") then default x00 (contrast_pixel b)
  else b.

(** ** The arithmetic of [main] *)

(** Lines 115-118: the rows of the input image that process [rank] of
    [size] owns. *)
Record row_range := RowRange { localInHeight : Z; startRow : Z }.

Definition local_rows (height size rank : Z) : option row_range :=
  rowsPerProc ← Cxx.div height size;
  remainder ← Cxx.rem height size;
  Some {| localInHeight := rowsPerProc + (if decide (rank < remainder) then 1 else 0);
          startRow := rank * rowsPerProc + Z.min rank remainder |}.

(** Line 136: [newHeight * localInHeight / height] on [int]. *)
Definition local_out_height (newHeight height localInHeight : Z) : option Z :=
  p ← Cxx.int (newHeight * localInHeight);
  q ← Cxx.div p height;
  Cxx.int q.

(** Lines 136-139: what a process does with the block it was sent. *)
Definition process_block (localIn : list byte)
    (width height channels newHeight localInHeight : Z) (filterType : string)
  : option (list byte) :=
  localOutHeight ← local_out_height newHeight height localInHeight;
  localResized ← resize_rows localIn width localInHeight localOutHeight channels;
  apply_filter localResized width localOutHeight channels filterType.

(** Lines 141-149: the receive counts and displacements that rank 0 hands
    to the gather.  The loop state is the two vectors and [offset]. *)
Definition gather_step (height newHeight size width channels remainder : Z)
    (i : Z) (st : list Z * list Z * Z) : option (list Z * list Z * Z) :=
  let '(recvCounts, recvDispls, offset) := st in
  q ← Cxx.div height size;
  let inRows := q + (if decide (i < remainder) then 1 else 0) in
  p ← Cxx.int (newHeight * inRows);
  q ← Cxx.div p height;
  outRows ← Cxx.int q;
  n ← Cxx.int (outRows * width);
  n ← Cxx.int (n * channels);
  recvCounts ← Cxx.vec_set recvCounts i n;
  recvDispls ← Cxx.vec_set recvDispls i offset;
  cnt ← Cxx.vec_get recvCounts i;
  offset ← Cxx.int (offset + cnt);
  Some (recvCounts, recvDispls, offset).

Definition gather_tables (height newHeight size width channels : Z)
  : option (list Z * list Z) :=
  remainder ← Cxx.rem height size;
  recvCounts ← Cxx.vec_make size 0;
  recvDispls ← Cxx.vec_make size 0;
  st ← Cxx.for_upto size
         (gather_step height newHeight size width channels remainder)
         (recvCounts, recvDispls, 0);
  Some (st.1.1, st.1.2).

(** The per-rank values of lines 115-118 and of line 136, for all ranks. *)
Definition all_local_rows (height size : Z) : option (list row_range) :=
  mapM (local_rows height size) (seqZ 0 size).

Definition all_out_heights (height newHeight size : Z) : option (list Z) :=
  mapM (λ rank, r ← local_rows height size rank;
                local_out_height newHeight height (localInHeight r))
       (seqZ 0 size).

Definition sumZ (l : list Z) : Z := foldr Z.add 0 l.

(** ** The partition formulas as the specification words them *)

(** Input rows of worker [i]: [base + 1] if [i < remainder], else [base],
    with [base = floor(height / workerCount)] and
    [remainder = height mod workerCount]. *)
Definition plan_in_rows (height workerCount i : Z) : Z :=
  height / workerCount + (if decide (i < height `mod` workerCount) then 1 else 0).

(** First input row of worker [i]: [i * base + min(i, remainder)]. *)
Definition plan_in_start (height workerCount i : Z) : Z :=
  i * (height / workerCount) + Z.min i (height `mod` workerCount).

(** Output rows of worker [i]: [floor(newHeight * inputRows / height)]. *)
Definition plan_out_rows (height newHeight workerCount i : Z) : Z :=
  (newHeight * plan_in_rows height workerCount i) / height.

(** ** The invariant of the gather-table loop *)

(** Bytes that rank [i] sends back. *)
Definition gather_count (height newHeight size width channels i : Z) : Z :=
  plan_out_rows height newHeight size i * width * channels.

(** Bytes that the ranks below [i] send back. *)
Definition gather_prefix (height newHeight size width channels i : Z) : Z :=
  sumZ (gather_count height newHeight size width channels <$> seqZ 0 i).

(** Before iteration [i] of lines 143-149: both vectors have [size]
    entries, the entries of the ranks below [i] are final, and [offset] is
    the number of bytes those ranks send back. *)
Definition gather_inv (height newHeight size width channels i : Z)
    (st : list Z * list Z * Z) : Prop :=
  let '(recvCounts, recvDispls, offset) := st in
  length recvCounts = Z.to_nat size
  ∧ length recvDispls = Z.to_nat size
  ∧ offset = gather_prefix height newHeight size width channels i
  ∧ ∀ j : nat, Z.of_nat j < i →
      recvCounts !! j = Some (gather_count height newHeight size width channels (Z.of_nat j))
      ∧ recvDispls !! j = Some (gather_prefix height newHeight size width channels (Z.of_nat j)).

(** ** The contrast formula as the specification words it *)

(** [round]: to the nearest integer, halves away from zero. *)
Definition spec_round (x : Q) : Z :=
  if Qle_bool 0 x then Qfloor (x + (1 # 2))%Q else Qceiling (x - (1 # 2))%Q.

(** [clamp(round((p - 128) * 1.2 + 128), 0, 255)] over the rationals. *)
Definition contrast_spec (p : Z) : Z :=
  Z.max 0 (Z.min 255 (spec_round (inject_Z (p - 128) * (12 # 10) + inject_Z 128)%Q)).

(** ** Exhaustive checks over the 256 byte values *)

Definition all_bytes : list byte := Cxx.int_to_uchar <$> seqZ 0 256.

(** What one byte is asked to satisfy under the contrast filter: the
    conversion to [int] is defined, the clamped value is stored without
    wrapping, and the stored value is the specification's rounded value or
    one below it. *)
Definition contrast_byte_ok (p : byte) : bool :=
  match contrast_val p, contrast_pixel p with
  | Some v, Some q =>
      bool_decide (Cxx.uchar_to_int q = clamp_0_255 v
        ∧ 0 <= Cxx.uchar_to_int q <= 255
        ∧ contrast_spec (Cxx.uchar_to_int p) - 1 <= Cxx.uchar_to_int q
            <= contrast_spec (Cxx.uchar_to_int p))
  | _, _ => false
  end.

(** Monotonicity on one pair of bytes. *)
Definition contrast_pair_ok (p1 p2 : byte) : bool :=
  match contrast_pixel p1, contrast_pixel p2 with
  | Some q1, Some q2 =>
      bool_decide (Cxx.uchar_to_int p1 <= Cxx.uchar_to_int p2 →
                   Cxx.uchar_to_int q1 <= Cxx.uchar_to_int q2)
  | _, _ => false
  end.

(** The contrast filter moves a byte away from mid-grey (128) or leaves
    it, and clips to 0 up to 22 and to 255 from 234 on: checked on one
    byte. *)
Definition contrast_spread_ok (p : byte) : bool :=
  match contrast_pixel p with
  | Some q =>
      bool_decide ((Cxx.uchar_to_int p = 128 → Cxx.uchar_to_int q = 128)
        ∧ (128 <= Cxx.uchar_to_int p → Cxx.uchar_to_int p <= Cxx.uchar_to_int q)
        ∧ (Cxx.uchar_to_int p <= 128 → Cxx.uchar_to_int q <= Cxx.uchar_to_int p)
        ∧ (Cxx.uchar_to_int q = 0 ↔ Cxx.uchar_to_int p <= 22)
        ∧ (Cxx.uchar_to_int q = 255 ↔ 234 <= Cxx.uchar_to_int p))
  | None => false
  end.

(** ** The coordinator: defaults, scatter and gather *)

(** Lines 105-106: a requested dimension of 0 means "keep the original". *)
Definition default_dim (requested original : Z) : Z :=
  if decide (requested = 0) then original else requested.

(** Lines 123-131: the send counts and displacements that rank 0 hands to
    the scatter.  The loop state is the two vectors and [offset]. *)
Definition scatter_step (height size width channels remainder : Z)
    (i : Z) (st : list Z * list Z * Z) : option (list Z * list Z * Z) :=
  let '(sendCounts, displs, offset) := st in
  q ← Cxx.div height size;
  let rpp := q + (if decide (i < remainder) then 1 else 0) in
  sendCounts ← Cxx.vec_set sendCounts i (rpp * width * channels);
  displs ← Cxx.vec_set displs i offset;
  cnt ← Cxx.vec_get sendCounts i;
  Some (sendCounts, displs, offset + cnt).

Definition scatter_tables (height size width channels : Z)
  : option (list Z * list Z) :=
  remainder ← Cxx.rem height size;
  sendCounts ← Cxx.vec_make size 0;
  displs ← Cxx.vec_make size 0;
  st ← Cxx.for_upto size
         (scatter_step height size width channels remainder)
         (sendCounts, displs, 0);
  Some (st.1.1, st.1.2).

(** [v.resize(n)]: the first [n] elements are kept, missing ones are
    value-initialised; a negative [int] converts to a huge [size_t] and the
    call throws. *)
Definition vec_resize {A} (v : list A) (n : Z) (zero : A) : option (list A) :=
  if decide (0 <= n)
  then Some (take (Z.to_nat n) v ++ replicate (Z.to_nat n - length v) zero)
  else None.

(** The two collectives on byte buffers, as the MPI standard defines the
    data they move (synchronisation is not modelled). *)
Module MPI.

(** [MPI_Scatterv] as seen by [rank]: it receives [sendcounts[rank]] bytes,
    taken from offset [displs[rank]] of the root's [sendbuf], at the front
    of its [recvbuf].  Reading outside [sendbuf], or receiving more than
    [recvcount] bytes or than [recvbuf] holds, is erroneous. *)
Definition scatterv (sendbuf : list byte) (sendcounts displs : list Z)
    (rank : Z) (recvbuf : list byte) (recvcount : Z) : option (list byte) :=
  cnt ← Cxx.vec_get sendcounts rank;
  d ← Cxx.vec_get displs rank;
  if decide (0 <= cnt ∧ 0 <= d ∧ d + cnt <= Z.of_nat (length sendbuf)
             ∧ cnt <= recvcount ∧ recvcount <= Z.of_nat (length recvbuf))
  then Some (take (Z.to_nat cnt) (drop (Z.to_nat d) sendbuf)
             ++ drop (Z.to_nat cnt) recvbuf)
  else None.

(** Storing the bytes [block] at offset [d] of [recvbuf]. *)
Definition store_block (recvbuf : list byte) (d : Z) (block : list byte)
  : option (list byte) :=
  if decide (0 <= d ∧ d + Z.of_nat (length block) <= Z.of_nat (length recvbuf))
  then Some (take (Z.to_nat d) recvbuf ++ block
             ++ drop (Z.to_nat d + length block) recvbuf)
  else None.

(** [MPI_Gatherv] at the root: [sent] lists, rank by rank, the send buffer
    and send count of each process; the first [sendcount] bytes of rank
    [i] are stored at offset [displs[i]] of [recvbuf].  Sending more bytes
    than the buffer holds or than [recvcounts[i]] allows, or storing
    outside [recvbuf], is erroneous. *)
Definition gatherv (sent : list (list byte * Z)) (recvbuf : list byte)
    (recvcounts displs : list Z) : option (list byte) :=
  Cxx.for_upto (Z.of_nat (length sent)) (λ i recvbuf,
    s ← Cxx.vec_get sent i;
    cnt ← Cxx.vec_get recvcounts i;
    d ← Cxx.vec_get displs i;
    if decide (0 <= s.2 <= Z.of_nat (length s.1) ∧ s.2 <= cnt)
    then store_block recvbuf d (take (Z.to_nat s.2) s.1)
    else None) recvbuf.

End MPI.

(** The [filterType] of the process [rank].  The string is declared on
    every process (line 66), read from the input on rank 0 only (line 87)
    and, unlike the five integers of lines 109-113, never broadcast: on
    the other ranks it is the empty string it was constructed as. *)
Definition rank_filter (filterType : string) (rank : Z) : string :=
  if decide (rank = 0) then filterType else EmptyString.

(** Lines 115-139 and the send arguments of line 153, for the process
    [rank]: its resampled and filtered block and the number of bytes it
    sends back.  [filterType] is the name read on rank 0; [sendCounts] and
    [displs] are those of rank 0. *)
Definition rank_main (fullImage : list byte)
    (width height channels newHeight size : Z) (filterType : string)
    (sendCounts displs : list Z) (rank : Z) : option (list byte * Z) :=
  r ← local_rows height size rank;
  let localInBytes := localInHeight r * width * channels in
  localIn ← Cxx.vec_make localInBytes x00;
  localIn ← MPI.scatterv fullImage sendCounts displs rank localIn localInBytes;
  localOutHeight ← local_out_height newHeight height (localInHeight r);
  localResized ← resize_rows localIn width (localInHeight r) localOutHeight channels;
  localResized ← apply_filter localResized width localOutHeight channels
                   (rank_filter filterType rank);
  n ← Cxx.int (localOutHeight * width);
  sendcount ← Cxx.int (n * channels);
  Some (localResized, sendcount).

(** Lines 105-155: from the decoded image and the requested dimensions to
    the buffer that rank 0 passes to the encoder as a
    [newWidth x newHeight] image. *)
Definition main_output (fullImage : list byte)
    (width height channels newWidth newHeight size : Z) (filterType : string)
  : option (list byte) :=
  let newWidth := default_dim newWidth width in
  let newHeight := default_dim newHeight height in
  tables ← scatter_tables height size width channels;
  sent ← mapM (rank_main fullImage width height channels newHeight size
                 filterType tables.1 tables.2) (seqZ 0 size);
  recv ← gather_tables height newHeight size width channels;
  n ← Cxx.int (newWidth * newHeight);
  n ← Cxx.int (n * channels);
  fullImage ← vec_resize fullImage n x00;
  MPI.gatherv sent fullImage recv.1 recv.2.

(** ** The invariant of the scatter-table loop *)

(** Bytes that rank [i] is sent. *)
Definition scatter_count (height size width channels i : Z) : Z :=
  plan_in_rows height size i * width * channels.

(** Before iteration [i] of lines 125-130: both vectors have [size]
    entries, the entries of the ranks below [i] are final, and [offset] is
    the offset of the first row of rank [i]. *)
Definition scatter_inv (height size width channels i : Z)
    (st : list Z * list Z * Z) : Prop :=
  let '(sendCounts, displs, offset) := st in
  length sendCounts = Z.to_nat size
  ∧ length displs = Z.to_nat size
  ∧ offset = plan_in_start height size i * width * channels
  ∧ ∀ j : nat, Z.of_nat j < i →
      sendCounts !! j = Some (scatter_count height size width channels (Z.of_nat j))
      ∧ displs !! j = Some (plan_in_start height size (Z.of_nat j) * width * channels).

(** The bytes of the rows [start, start + rows) of an image. *)
Definition image_rows (fullImage : list byte) (width channels start rows : Z)
  : list byte :=
  take (Z.to_nat (rows * width * channels))
       (drop (Z.to_nat (start * width * channels)) fullImage).

(** * Proofs *)

(** ** Loops *)

Section loops.
Context {S : Type}.
Implicit Types (body : Z → S → option S) (P : Z → S → Prop).

(** Invariant rule: [P] holds on entry and every iteration in range
    succeeds and re-establishes it, so the loop succeeds and [P] holds at
    the end. *)
Lemma for_range_inv P body n i0 s :
  P i0 s →
  (∀ i t, i0 <= i < i0 + Z.of_nat n → P i t →
          ∃ t', body i t = Some t' ∧ P (i + 1) t') →
  ∃ s', Cxx.for_range n i0 body s = Some s' ∧ P (i0 + Z.of_nat n) s'.
Proof.
  revert i0 s. induction n as [|n IH]; intros i0 s Hs Hstep.
  - exists s. split; [done|]. by replace (i0 + Z.of_nat 0) with i0 by lia.
  - destruct (Hstep i0 s) as (t & Hb & Ht); [lia|done|].
    destruct (IH (i0 + 1) t) as (s' & Hr & Hs'); [done| |].
    + intros i u Hi. apply Hstep. lia.
    + exists s'. split.
      * cbn. rewrite Hb. exact Hr.
      * by replace (i0 + Z.of_nat (Datatypes.S n)) with (i0 + 1 + Z.of_nat n) by lia.
Qed.

Lemma for_upto_inv P body hi s :
  0 <= hi →
  P 0 s →
  (∀ i t, 0 <= i < hi → P i t → ∃ t', body i t = Some t' ∧ P (i + 1) t') →
  ∃ s', Cxx.for_upto hi body s = Some s' ∧ P hi s'.
Proof.
  intros Hhi Hs Hstep. unfold Cxx.for_upto.
  destruct (for_range_inv P body (Z.to_nat hi) 0 s) as (s' & Hr & Hs'); [done| |].
  - intros i t Hi. apply Hstep. lia.
  - exists s'. split; [done|]. by replace hi with (0 + Z.of_nat (Z.to_nat hi)) at 1 by lia.
Qed.


End loops.

(** ** More on loops *)

Section loops_more.
Context {S : Type}.
Implicit Types (body : Z → S → option S).

(** A property that every iteration preserves holds of the result. *)
Lemma for_range_preserves (Q : S → Prop) body n i s s' :
  (∀ j t t', body j t = Some t' → Q t → Q t') →
  Q s → Cxx.for_range n i body s = Some s' → Q s'.
Proof.
  intros Hbody. revert i s. induction n as [|n IH]; intros i s Hs Hr; cbn in Hr.
  - by injection Hr as <-.
  - destruct (body i s) as [t|] eqn:Ht; [|done]. cbn in Hr.
    eapply IH; [|exact Hr]. by eapply Hbody.
Qed.

(** Running [n + m] iterations is running [n], then [m]. *)
Lemma for_range_add body n m i s :
  Cxx.for_range (n + m) i body s
  = Cxx.for_range n i body s ≫= Cxx.for_range m (i + Z.of_nat n) body.
Proof.
  revert i s. induction n as [|n IH]; intros i s.
  - cbn. by rewrite Z.add_0_r.
  - cbn. destruct (body i s) as [t|]; [|done]. cbn. rewrite IH.
    by replace (i + 1 + Z.of_nat n) with (i + Z.pos (Pos.of_succ_nat n)) by lia.
Qed.

(** Partial correctness: whatever the iterations that succeed preserve
    holds of a result, if there is one. *)
Lemma for_range_sound (P : Z → S → Prop) body n i0 s s' :
  P i0 s →
  (∀ i t t', i0 <= i < i0 + Z.of_nat n → P i t → body i t = Some t' → P (i + 1) t') →
  Cxx.for_range n i0 body s = Some s' → P (i0 + Z.of_nat n) s'.
Proof.
  revert i0 s. induction n as [|n IH]; intros i0 s Hs Hstep Hr; cbn in Hr.
  - injection Hr as <-. by replace (i0 + Z.of_nat 0) with i0 by lia.
  - destruct (body i0 s) as [t|] eqn:Ht; [|done]. cbn in Hr.
    replace (i0 + Z.of_nat (Datatypes.S n)) with (i0 + 1 + Z.of_nat n) by lia.
    apply (IH (i0 + 1) t); [|intros i u u' Hi; apply Hstep; lia|done].
    apply (Hstep i0 s); [lia|done|done].
Qed.

End loops_more.

(** ** Vector accesses *)

Lemma vec_get_lookup {A} (v : list A) (i : nat) :
  Cxx.vec_get v (Z.of_nat i) = v !! i.
Proof. unfold Cxx.vec_get. rewrite decide_True by lia. by rewrite Nat2Z.id. Qed.

Lemma vec_set_insert {A} (v : list A) (i : nat) (x : A) :
  (i < length v)%nat → Cxx.vec_set v (Z.of_nat i) x = Some (<[i := x]> v).
Proof. intros Hi. unfold Cxx.vec_set. rewrite decide_True by lia. by rewrite Nat2Z.id. Qed.

(** ** The in-place pixel loop *)

Section pixel_loop.
Variable f : byte → option byte.
Variable g : byte → byte.
Hypothesis f_total : ∀ b, f b = Some (g b).

(** The first [n] bytes are mapped, the rest is left alone. *)
Lemma pixel_loop_prefix (n : nat) (data : list byte) :
  (n <= length data)%nat →
  pixel_loop f (Z.of_nat n) data = Some ((g <$> take n data) ++ drop n data).
Proof.
  intros Hn. unfold pixel_loop.
  edestruct (for_upto_inv
    (λ i d, d = (g <$> take (Z.to_nat i) data) ++ drop (Z.to_nat i) data))
    as (d' & Hr & Hd'); [| |  | rewrite Hr, Hd', Nat2Z.id; reflexivity].
  - lia.
  - cbn. by rewrite take_0, drop_0.
  - intros i d Hi ->.
    assert (∃ k : nat, i = Z.of_nat k ∧ (k < length data)%nat) as (k & -> & Hk).
    { exists (Z.to_nat i). lia. }
    rewrite Nat2Z.id.
    destruct (lookup_lt_is_Some_2 data k Hk) as [b Hb].
    assert (length (g <$> take k data) = k) as Hlen.
    { rewrite length_fmap, length_take. lia. }
    rewrite vec_get_lookup.
    rewrite lookup_app_r by lia. rewrite Hlen, Nat.sub_diag.
    rewrite lookup_drop, Nat.add_0_r, Hb. cbn. rewrite f_total. cbn.
    rewrite vec_set_insert.
    2:{ rewrite length_app, Hlen, length_drop. lia. }
    eexists. split; [reflexivity|].
    replace (Z.to_nat (Z.of_nat k + 1)) with (Datatypes.S k) by lia.
    rewrite insert_app_r_alt by lia. rewrite Hlen, Nat.sub_diag.
    rewrite (drop_S _ _ _ Hb). cbn.
    rewrite (take_S_r _ _ _ Hb), fmap_app. cbn.
    by rewrite <- app_assoc.
Qed.

Lemma pixel_loop_whole (n : Z) (data : list byte) :
  n = Z.of_nat (length data) → pixel_loop f n data = Some (g <$> data).
Proof.
  intros ->. rewrite pixel_loop_prefix by lia.
  by rewrite firstn_all, drop_all, app_nil_r.
Qed.

End pixel_loop.

(** ** Bytes *)

Lemma uchar_to_int_range (b : byte) : 0 <= Cxx.uchar_to_int b < 256.
Proof.
  unfold Cxx.uchar_to_int. pose proof (Byte.to_N_bounded b) as H. lia.
Qed.

Lemma int_to_uchar_to_int (b : byte) : Cxx.int_to_uchar (Cxx.uchar_to_int b) = b.
Proof. by destruct b. Qed.

Lemma uchar_to_int_to_uchar (z : Z) :
  0 <= z < 256 → Cxx.uchar_to_int (Cxx.int_to_uchar z) = z.
Proof.
  intros Hz. unfold Cxx.uchar_to_int, Cxx.int_to_uchar.
  rewrite Z.mod_small by done.
  destruct (Byte.of_N (Z.to_N z)) as [b|] eqn:Hb.
  - cbn. apply Byte.to_of_N in Hb. lia.
  - apply Byte.of_N_None_iff in Hb. lia.
Qed.

Lemma elem_of_all_bytes (b : byte) : b ∈ all_bytes.
Proof.
  unfold all_bytes. rewrite <- (int_to_uchar_to_int b).
  apply list_elem_of_fmap_2, elem_of_seqZ. pose proof (uchar_to_int_range b). lia.
Qed.

(** ** The pixel functions *)

Lemma invert_pixel_value (b : byte) :
  Cxx.uchar_to_int (invert_pixel b) = 255 - Cxx.uchar_to_int b.
Proof.
  unfold invert_pixel. apply uchar_to_int_to_uchar.
  pose proof (uchar_to_int_range b). lia.
Qed.

Lemma invert_pixel_involutive (b : byte) : invert_pixel (invert_pixel b) = b.
Proof.
  unfold invert_pixel at 1. rewrite invert_pixel_value.
  replace (255 - (255 - Cxx.uchar_to_int b)) with (Cxx.uchar_to_int b) by lia.
  apply int_to_uchar_to_int.
Qed.

Lemma contrast_bytes_checked :
  forallb contrast_byte_ok all_bytes = true.
Proof. vm_compute. reflexivity. Qed.

Lemma contrast_pairs_checked :
  forallb (λ p1, forallb (contrast_pair_ok p1) all_bytes) all_bytes = true.
Proof. vm_compute. reflexivity. Qed.

Lemma contrast_byte_ok_all (p : byte) : contrast_byte_ok p = true.
Proof.
  pose proof contrast_bytes_checked as H.
  rewrite forallb_forall in H. apply H, list_elem_of_In, elem_of_all_bytes.
Qed.

Lemma contrast_pair_ok_all (p1 p2 : byte) : contrast_pair_ok p1 p2 = true.
Proof.
  pose proof contrast_pairs_checked as H.
  rewrite forallb_forall in H.
  specialize (H p1 (proj1 (list_elem_of_In _ _) (elem_of_all_bytes p1))).
  rewrite forallb_forall in H. apply H, list_elem_of_In, elem_of_all_bytes.
Qed.

Lemma contrast_pixel_total (b : byte) :
  contrast_pixel b = Some (default x00 (contrast_pixel b)).
Proof.
  pose proof (contrast_byte_ok_all b) as H. unfold contrast_byte_ok in H.
  destruct (contrast_val b); [|done]. by destruct (contrast_pixel b).
Qed.


Lemma apply_filter_map data width height channels filterType :
  width * height * channels = Z.of_nat (length data) →
  apply_filter data width height channels filterType
  = Some (filter_pixel filterType <$> data).
Proof.
  intros Hn. unfold apply_filter, filter_pixel.
  repeat case_decide.
  - by apply pixel_loop_whole.
  - by apply pixel_loop_whole.
  - apply pixel_loop_whole; [apply contrast_pixel_total|done].
  - f_equal. symmetry. apply list_fmap_id.
Qed.

(** ** The pixel filter: claims *)

(** C4, as the specification states it, fails at the byte 131: the code
    converts the single-precision value 131.6 to [int] by truncation and
    stores 131, whereas [clamp(round((131 - 128) * 1.2 + 128), 0, 255)] is
    132. *)
Lemma contrast_round_counterexample :
  apply_filter [x83] 1 1 1 "contrast" = Some [x83]
  ∧ Cxx.uchar_to_int x83 = 131
  ∧ contrast_spec 131 = 132
  ∧ contrast_pixel x83 ≠ Some (Cxx.int_to_uchar (contrast_spec (Cxx.uchar_to_int x83))).
Proof. vm_compute. repeat split; congruence. Qed.

(** C4, amended: for every input byte [p1] the contrast filter stores
    [clamp(trunc((p1 - 128) * 1.2f + 128), 0, 255)], where the arithmetic
    is single precision and [trunc] is the conversion to [int] (toward
    zero), not rounding.  The conversion is always defined, the clamped
    value lies in [0, 255] and is stored unchanged, it is the rounded value
    of the specification or one below it, and the transform is monotonic. *)
Theorem contrast_truncates_clamps_monotone (p1 p2 : byte) :
  ∃ v q1 q2,
    contrast_val p1 = Some v
    ∧ apply_filter [p1] 1 1 1 "contrast" = Some [q1]
    ∧ apply_filter [p2] 1 1 1 "contrast" = Some [q2]
    ∧ Cxx.uchar_to_int q1 = clamp_0_255 v
    ∧ 0 <= Cxx.uchar_to_int q1 <= 255
    ∧ contrast_spec (Cxx.uchar_to_int p1) - 1 <= Cxx.uchar_to_int q1
        <= contrast_spec (Cxx.uchar_to_int p1)
    ∧ (Cxx.uchar_to_int p1 <= Cxx.uchar_to_int p2 →
       Cxx.uchar_to_int q1 <= Cxx.uchar_to_int q2).
Proof.
  pose proof (contrast_byte_ok_all p1) as H1.
  pose proof (contrast_pair_ok_all p1 p2) as H2.
  unfold contrast_byte_ok in H1. unfold contrast_pair_ok in H2.
  destruct (contrast_val p1) as [v|]; [|done].
  destruct (contrast_pixel p1) as [q1|] eqn:Hq1; [|done].
  destruct (contrast_pixel p2) as [q2|] eqn:Hq2; [|done].
  apply bool_decide_eq_true in H1 as (Hv & Hr & Hs).
  apply bool_decide_eq_true in H2.
  exists v, q1, q2.
  rewrite !apply_filter_map by done. unfold filter_pixel. cbn.
  rewrite Hq1, Hq2. done.
Qed.

(** C6: on a block whose size matches its dimensions the invert filter
    maps every byte [p], whatever channel it belongs to, to [255 - p], and
    applying it twice gives the block back. *)
Theorem invert_twice_restores (data : list byte) (width height channels : Z) :
  width * height * channels = Z.of_nat (length data) →
  apply_filter data width height channels "invert" = Some (invert_pixel <$> data)
  ∧ (∀ p, Cxx.uchar_to_int (invert_pixel p) = 255 - Cxx.uchar_to_int p)
  ∧ (apply_filter data width height channels "invert"
       ≫= λ d, apply_filter d width height channels "invert") = Some data.
Proof.
  intros Hn. rewrite apply_filter_map by done.
  split; [done|]. split; [apply invert_pixel_value|]. cbn.
  rewrite apply_filter_map by (by rewrite length_fmap).
  f_equal. rewrite <- list_fmap_compose.
  rewrite <- (list_fmap_id data) at 2.
  apply list_fmap_ext. intros i b _. apply invert_pixel_involutive.
Qed.

Lemma invert_twice_restores_witness :
  2 * 2 * 1 = Z.of_nat (length [x00; x7f; xff; x10])
  ∧ (apply_filter [x00; x7f; xff; x10] 2 2 1 "invert"
       ≫= λ d, apply_filter d 2 2 1 "invert") = Some [x00; x7f; xff; x10].
Proof.
  split; [reflexivity|].
  apply (invert_twice_restores [x00; x7f; xff; x10] 2 2 1). reflexivity.
Defined.

(** C8: a filter name other than the three recognised ones leaves the
    block as it is, and the call has a defined result (no error), whatever
    the dimensions passed. *)
Theorem unknown_filter_is_identity (data : list byte)
    (width height channels : Z) (filterType : string) :
  filterType ≠ "invert" → filterType ≠ "brightness" → filterType ≠ "contrast" →
  apply_filter data width height channels filterType = Some data.
Proof. intros H1 H2 H3. unfold apply_filter. by rewrite !decide_False. Qed.

Lemma unknown_filter_is_identity_witness :
  apply_filter [x01; x02; x03] 3 1 1 "blur" = Some [x01; x02; x03].
Proof. apply (unknown_filter_is_identity [x01; x02; x03] 3 1 1 "blur"); done. Defined.

(** C9: for every filter name, filtering two blocks that sit one after the
    other as one block gives the two separately filtered blocks one after
    the other; each result is the byte-wise image of its input under a
    function that depends on the filter name only. *)
Theorem apply_filter_app (filterType : string) (A B : list byte)
    (width heightA heightB channels : Z) :
  width * heightA * channels = Z.of_nat (length A) →
  width * heightB * channels = Z.of_nat (length B) →
  apply_filter A width heightA channels filterType = Some (filter_pixel filterType <$> A)
  ∧ apply_filter B width heightB channels filterType = Some (filter_pixel filterType <$> B)
  ∧ apply_filter (A ++ B) width (heightA + heightB) channels filterType
    = Some ((filter_pixel filterType <$> A) ++ (filter_pixel filterType <$> B)).
Proof.
  intros HA HB. rewrite !apply_filter_map; [by rewrite fmap_app|..|done|done].
  rewrite length_app. lia.
Qed.

Lemma apply_filter_app_witness :
  apply_filter ([x00; x01] ++ [xf0; xff]) 1 (2 + 2) 1 "brightness"
  = Some ((filter_pixel "brightness" <$> [x00; x01])
          ++ (filter_pixel "brightness" <$> [xf0; xff])).
Proof.
  apply (apply_filter_app "brightness" [x00; x01] [xf0; xff] 1 2 2 1); reflexivity.
Defined.

(** ** Index arithmetic *)

Lemma quot_rem_unique (b q r q' r' : Z) :
  0 <= r < b → 0 <= r' < b → q * b + r = q' * b + r' → q = q' ∧ r = r'.
Proof.
  intros Hr Hr' Heq.
  assert (q = q') as ->; [|lia].
  destruct (Z.lt_trichotomy q q') as [Hlt|[->|Hlt]]; [|done|]; exfalso; nia.
Qed.

Lemma flat_index_inj (width channels y x c y' x' c' : Z) :
  0 <= x < width → 0 <= x' < width → 0 <= c < channels → 0 <= c' < channels →
  flat_index width channels y x c = flat_index width channels y' x' c' →
  y = y' ∧ x = x' ∧ c = c'.
Proof.
  unfold flat_index. intros Hx Hx' Hc Hc' Heq.
  apply quot_rem_unique in Heq as [Heq ->]; [|done..].
  apply quot_rem_unique in Heq as [-> ->]; done.
Qed.

Lemma flat_index_bounds (width channels rows y x c : Z) :
  0 <= y < rows → 0 <= x < width → 0 <= c < channels →
  0 <= flat_index width channels y x c < width * rows * channels.
Proof.
  unfold flat_index. intros Hy Hx Hc.
  assert (0 <= y * width + x <= rows * width - 1) by nia.
  split; [nia|].
  assert ((y * width + x) * channels <= (rows * width - 1) * channels) by nia.
  nia.
Qed.

(** The source row of an output row is a row of the input block, and on
    this range truncating and flooring division agree. *)
Lemma src_row_bounds (inHeight outHeight y : Z) :
  0 <= y < outHeight → 1 <= inHeight →
  (y * inHeight) ÷ outHeight = (y * inHeight) / outHeight
  ∧ 0 <= (y * inHeight) / outHeight < inHeight.
Proof.
  intros Hy Hin.
  rewrite Z.quot_div_nonneg by nia.
  split; [done|]. split.
  - apply Z.div_pos; nia.
  - apply Z.div_lt_upper_bound; nia.
Qed.


(** ** Arithmetic on [int] *)

Lemma int_fits (z : Z) :
  Cxx.INT_MIN <= z <= Cxx.INT_MAX → Cxx.int z = Some z.
Proof. intros Hz. unfold Cxx.int. by rewrite decide_True. Qed.

Lemma int_Some (z v : Z) :
  Cxx.int z = Some v → v = z ∧ Cxx.INT_MIN <= z <= Cxx.INT_MAX.
Proof. unfold Cxx.int. case_decide; [|done]. by intros [= <-]. Qed.

Lemma int_overflow (z : Z) : Cxx.INT_MAX < z → Cxx.int z = None.
Proof. intros Hz. unfold Cxx.int. rewrite decide_False; [done|lia]. Qed.

(** Non-negative operands: the quotient of [int]s is an [int]. *)
Lemma int_div_nonneg (a b : Z) :
  0 <= a <= Cxx.INT_MAX → 0 < b →
  (Cxx.int a ≫= λ p, Cxx.div p b ≫= Cxx.int) = Some (a / b).
Proof.
  intros Ha Hb. unfold Cxx.INT_MAX in *.
  rewrite int_fits by (unfold Cxx.INT_MIN, Cxx.INT_MAX; lia). cbn.
  unfold Cxx.div. rewrite decide_False by lia. cbn.
  rewrite Z.quot_div_nonneg by lia.
  assert (0 <= a / b <= a).
  { split; [apply Z.div_pos; lia|]. apply Z.div_le_upper_bound; nia. }
  apply int_fits. unfold Cxx.INT_MIN, Cxx.INT_MAX. lia.
Qed.

(** An index inside a block whose size fits is computed without
    overflow. *)
Lemma int_index_fits (width channels y x c : Z) :
  0 <= y → 0 <= x < width → 0 <= c < channels →
  flat_index width channels y x c <= Cxx.INT_MAX →
  int_index width channels y x c = Some (flat_index width channels y x c).
Proof.
  unfold flat_index, int_index, Cxx.INT_MAX. intros Hy Hx Hc Hfit.
  assert (0 <= y * width) by nia.
  assert (y * width + x <= (y * width + x) * channels) by nia.
  rewrite !int_fits; cbn; rewrite ?int_fits; cbn; rewrite ?int_fits; cbn;
    rewrite ?int_fits; try done; unfold Cxx.INT_MIN, Cxx.INT_MAX; lia.
Qed.

(** ** [resize_rows] *)

Section resize_rows.
Variables (data : list byte) (width inHeight outHeight channels : Z).
Hypothesis width_nonneg : 0 <= width.
Hypothesis channels_nonneg : 0 <= channels.
Hypothesis data_size : Z.of_nat (length data) = width * inHeight * channels.
Hypothesis rows_available : 1 <= outHeight → 1 <= inHeight.
Hypothesis data_fits : width * inHeight * channels <= Cxx.INT_MAX.
Hypothesis out_fits : width * outHeight * channels <= Cxx.INT_MAX.

(** The body of the innermost loop: both indices are computed without
    overflow, one byte is read inside [data] and written inside [out], at
    the next offset. *)
Lemma resize_copy_byte (out : list byte) (y x c : Z) :
  0 <= y < outHeight → 0 <= x < width → 0 <= c < channels →
  resized_upto data out width inHeight outHeight channels
    (flat_index width channels y x c) →
  ∃ out',
    (int_index width channels y x c ≫= λ dst,
       int_index width channels ((y * inHeight) ÷ outHeight) x c ≫= λ src,
         Cxx.vec_get data src ≫= Cxx.vec_set out dst) = Some out'
    ∧ resized_upto data out' width inHeight outHeight channels
        (flat_index width channels y x c + 1).
Proof.
  intros Hy Hx Hc [Hlen Hdone].
  destruct (src_row_bounds inHeight outHeight y) as [Hq Hsrc]; [done|lia|].
  pose proof (flat_index_bounds width channels inHeight _ x c Hsrc Hx Hc) as Hrd.
  pose proof (flat_index_bounds width channels outHeight y x c Hy Hx Hc) as Hwr.
  rewrite <- Hq in Hrd, Hsrc.
  rewrite !int_index_fits by lia. cbn.
  set (src := flat_index width channels ((y * inHeight) ÷ outHeight) x c) in *.
  set (dst := flat_index width channels y x c) in *.
  destruct (lookup_lt_is_Some_2 data (Z.to_nat src)) as [b Hb]; [lia|].
  unfold Cxx.vec_get, Cxx.vec_set. rewrite decide_True by lia. rewrite Hb. cbn.
  rewrite decide_True by lia.
  eexists. split; [reflexivity|]. split; [by rewrite length_insert|].
  intros y' x' c' Hy' Hx' Hc' Hlt.
  destruct (decide (flat_index width channels y' x' c' = dst)) as [Heq|Hne].
  - apply flat_index_inj in Heq as (-> & -> & ->); [|done..].
    exists b. split; [done|]. fold dst. apply list_lookup_insert_eq. lia.
  - destruct (Hdone y' x' c') as (b' & Hb' & Ho'); [done..|lia|].
    exists b'. split; [done|]. rewrite list_lookup_insert_ne; [done|].
    pose proof (flat_index_bounds width channels outHeight y' x' c' Hy' Hx' Hc').
    lia.
Qed.

(** The loop over the channels of one pixel. *)
Lemma resize_copy_pixel (out : list byte) (y x : Z) :
  0 <= y < outHeight → 0 <= x < width →
  resized_upto data out width inHeight outHeight channels
    (flat_index width channels y x 0) →
  ∃ out',
    Cxx.for_upto channels (λ c out,
      int_index width channels y x c ≫= λ dst,
        int_index width channels ((y * inHeight) ÷ outHeight) x c ≫= λ src,
          Cxx.vec_get data src ≫= Cxx.vec_set out dst) out = Some out'
    ∧ resized_upto data out' width inHeight outHeight channels
        (flat_index width channels y (x + 1) 0).
Proof.
  intros Hy Hx Hout.
  replace (flat_index width channels y (x + 1) 0)
    with (flat_index width channels y x channels) by (unfold flat_index; lia).
  apply (for_upto_inv
    (λ c o, resized_upto data o width inHeight outHeight channels
              (flat_index width channels y x c))); [done..|].
  intros c o Hc Ho.
  replace (flat_index width channels y x (c + 1))
    with (flat_index width channels y x c + 1) by (unfold flat_index; lia).
  by apply resize_copy_byte.
Qed.

(** One iteration of the outer loop: the source row of line 24 is
    computed without overflow and the row is copied. *)
Lemma resize_copy_row (out : list byte) (y : Z) :
  0 <= y < outHeight → y * inHeight <= Cxx.INT_MAX →
  resized_upto data out width inHeight outHeight channels
    (flat_index width channels y 0 0) →
  ∃ out',
    (Cxx.int (y * inHeight) ≫= λ p, Cxx.div p outHeight ≫= λ q,
       Cxx.int q ≫= λ srcY,
         Cxx.for_upto width (λ x out,
           Cxx.for_upto channels (λ c out,
             int_index width channels y x c ≫= λ dst,
               int_index width channels srcY x c ≫= λ src,
                 Cxx.vec_get data src ≫= Cxx.vec_set out dst) out) out) = Some out'
    ∧ resized_upto data out' width inHeight outHeight channels
        (flat_index width channels (y + 1) 0 0).
Proof.
  intros Hy Hfit Hout.
  destruct (src_row_bounds inHeight outHeight y) as [Hq Hsrc]; [done|lia|].
  assert (0 <= y * inHeight) by nia.
  rewrite int_fits by (unfold Cxx.INT_MIN; lia). cbn.
  unfold Cxx.div. rewrite decide_False by lia. cbn.
  assert ((y * inHeight) / outHeight <= y * inHeight)
    by (apply Z.div_le_upper_bound; nia).
  rewrite int_fits by (rewrite Hq; unfold Cxx.INT_MIN; lia). cbn.
  replace (flat_index width channels (y + 1) 0 0)
    with (flat_index width channels y width 0) by (unfold flat_index; lia).
  apply (for_upto_inv
    (λ x o, resized_upto data o width inHeight outHeight channels
              (flat_index width channels y x 0))); [done..|].
  intros x o Hx Ho. by apply resize_copy_pixel.
Qed.

(** The first [k] iterations of the outer loop, when their source rows
    are computed without overflow. *)
Lemma resize_rows_upto (k : nat) (out : list byte) :
  Z.of_nat k <= outHeight →
  (Z.of_nat k - 1) * inHeight <= Cxx.INT_MAX →
  resized_upto data out width inHeight outHeight channels 0 →
  ∃ out',
    Cxx.for_range k 0 (λ y out,
      Cxx.int (y * inHeight) ≫= λ p, Cxx.div p outHeight ≫= λ q,
        Cxx.int q ≫= λ srcY,
          Cxx.for_upto width (λ x out,
            Cxx.for_upto channels (λ c out,
              int_index width channels y x c ≫= λ dst,
                int_index width channels srcY x c ≫= λ src,
                  Cxx.vec_get data src ≫= Cxx.vec_set out dst) out) out) out
    = Some out'
    ∧ resized_upto data out' width inHeight outHeight channels
        (flat_index width channels (Z.of_nat k) 0 0).
Proof.
  intros Hk Hfit Hout.
  apply (for_range_inv
    (λ y o, resized_upto data o width inHeight outHeight channels
              (flat_index width channels y 0 0))).
  - exact Hout.
  - intros y o Hy Ho. apply resize_copy_row; [lia| |done].
    assert (1 <= inHeight) by (apply rows_available; lia). nia.
Qed.

Lemma resized_upto_start :
  0 <= outHeight →
  resized_upto data (replicate (Z.to_nat (width * outHeight * channels)) x00)
    width inHeight outHeight channels 0.
Proof.
  intros Hout. split; [rewrite length_replicate; nia|].
  intros y x c Hy Hx Hc Hlt. exfalso.
  pose proof (flat_index_bounds width channels outHeight y x c Hy Hx Hc). lia.
Qed.

Lemma resize_rows_alloc :
  0 <= outHeight → width * outHeight <= Cxx.INT_MAX →
  (Cxx.int (width * outHeight) ≫= λ n, Cxx.int (n * channels) ≫= λ n,
     Cxx.vec_make n x00)
  = Some (replicate (Z.to_nat (width * outHeight * channels)) x00).
Proof.
  intros Hout Hrow.
  rewrite int_fits by (unfold Cxx.INT_MIN; nia). cbn.
  rewrite int_fits by (unfold Cxx.INT_MIN; nia). cbn.
  unfold Cxx.vec_make. by rewrite decide_True by nia.
Qed.

(** The whole function: when no product overflows it has a result, of
    the announced size, and every byte of the result is the byte of the
    source row. *)
Lemma resize_rows_spec :
  0 <= outHeight → width * outHeight <= Cxx.INT_MAX →
  (outHeight - 1) * inHeight <= Cxx.INT_MAX →
  ∃ out,
    resize_rows data width inHeight outHeight channels = Some out
    ∧ resized_upto data out width inHeight outHeight channels
        (flat_index width channels outHeight 0 0).
Proof.
  intros Hout Hrow Hsrc. unfold resize_rows.
  pose proof (resize_rows_alloc Hout Hrow) as Halloc.
  destruct (Cxx.int (width * outHeight)) as [n|]; [|done]. cbn in *.
  destruct (Cxx.int (n * channels)) as [n'|]; [|done]. cbn in *.
  rewrite Halloc. cbn. unfold Cxx.for_upto.
  destruct (resize_rows_upto (Z.to_nat outHeight) _ ltac:(lia)
              ltac:(by rewrite Z2Nat.id by lia) (resized_upto_start Hout))
    as (out & Hr & Hres).
  exists out. split; [exact Hr|]. by rewrite Z2Nat.id in Hres by lia.
Qed.

(** When the product of line 24 stops fitting at row [y0], the call has
    no defined result. *)
Lemma resize_rows_src_overflow (y0 : Z) :
  width * outHeight <= Cxx.INT_MAX →
  0 <= y0 < outHeight →
  (y0 - 1) * inHeight <= Cxx.INT_MAX → Cxx.INT_MAX < y0 * inHeight →
  resize_rows data width inHeight outHeight channels = None.
Proof.
  intros Hrow Hy0 Hbefore Hover. unfold resize_rows.
  pose proof (resize_rows_alloc ltac:(lia) Hrow) as Halloc.
  destruct (Cxx.int (width * outHeight)) as [n|]; [|done]. cbn in *.
  destruct (Cxx.int (n * channels)) as [n'|]; [|done]. cbn in *.
  rewrite Halloc. cbn. unfold Cxx.for_upto.
  replace (Z.to_nat outHeight)
    with (Z.to_nat y0 + S (Z.to_nat outHeight - Z.to_nat y0 - 1))%nat by lia.
  rewrite for_range_add.
  destruct (resize_rows_upto (Z.to_nat y0) _ ltac:(lia)
              ltac:(by rewrite Z2Nat.id by lia) (resized_upto_start ltac:(lia)))
    as (out & Hr & _).
  match goal with |- context [Cxx.for_range (Z.to_nat y0) 0 ?b ?s] =>
    replace (Cxx.for_range (Z.to_nat y0) 0 b s) with (Some out)
      by (symmetry; exact Hr)
  end.
  cbn. rewrite Z.add_0_l, Z2Nat.id by lia. by rewrite int_overflow.
Qed.

End resize_rows.

(** A result of [resize_rows] has the announced size. *)
Lemma resize_rows_length (data out : list byte)
    (width inHeight outHeight channels : Z) :
  resize_rows data width inHeight outHeight channels = Some out →
  Z.of_nat (length out) = width * outHeight * channels
  ∧ 0 <= width * outHeight * channels.
Proof.
  unfold resize_rows. intros Hr.
  destruct (Cxx.int (width * outHeight)) as [n|] eqn:Hn; [|done].
  apply int_Some in Hn as [-> _]. cbn in Hr.
  destruct (Cxx.int (width * outHeight * channels)) as [n|] eqn:Hn; [|done].
  apply int_Some in Hn as [-> _]. cbn in Hr.
  unfold Cxx.vec_make in Hr. case_decide as Hpos; [|done]. cbn in Hr.
  split; [|done].
  revert Hr. unfold Cxx.for_upto.
  apply (for_range_preserves
    (λ o, Z.of_nat (length o) = width * outHeight * channels));
    [|rewrite length_replicate; lia].
  intros y o o' Hbody Ho.
  destruct (Cxx.int (y * inHeight)) as [p|]; [|done]. cbn in Hbody.
  destruct (Cxx.div p outHeight) as [q|]; [|done]. cbn in Hbody.
  destruct (Cxx.int q) as [srcY|]; [|done]. cbn in Hbody.
  revert Hbody. unfold Cxx.for_upto.
  apply (for_range_preserves
    (λ o, Z.of_nat (length o) = width * outHeight * channels)); [|done].
  intros x o1 o1' Hbody Ho1.
  revert Hbody. unfold Cxx.for_upto.
  apply (for_range_preserves
    (λ o, Z.of_nat (length o) = width * outHeight * channels)); [|done].
  intros c o2 o2' Hbody Ho2.
  destruct (int_index width channels y x c) as [dst|]; [|done]. cbn in Hbody.
  destruct (int_index width channels srcY x c) as [src|]; [|done]. cbn in Hbody.
  destruct (Cxx.vec_get data src) as [b|]; [|done]. cbn in Hbody.
  unfold Cxx.vec_set in Hbody. case_decide; [|done].
  injection Hbody as <-. by rewrite length_insert.
Qed.

(** A result of line 136 is the truncated quotient. *)
Lemma local_out_height_Some (newHeight height localInHeight v : Z) :
  local_out_height newHeight height localInHeight = Some v →
  v = (newHeight * localInHeight) ÷ height ∧ height ≠ 0
  ∧ Cxx.INT_MIN <= newHeight * localInHeight <= Cxx.INT_MAX.
Proof.
  unfold local_out_height. intros Hv.
  destruct (Cxx.int (newHeight * localInHeight)) as [p|] eqn:Hp; [|done].
  apply int_Some in Hp as [-> Hp]. cbn in Hv.
  unfold Cxx.div in Hv. case_decide; [done|]. cbn in Hv.
  apply int_Some in Hv as [-> _]. done.
Qed.

Lemma local_out_height_fits (newHeight height localInHeight : Z) :
  1 <= height → 0 <= newHeight → 0 <= localInHeight →
  newHeight * localInHeight <= Cxx.INT_MAX →
  local_out_height newHeight height localInHeight
  = Some ((newHeight * localInHeight) / height).
Proof.
  intros Hh Hn Hl Hfit. unfold local_out_height.
  apply (int_div_nonneg (newHeight * localInHeight) height); [nia|lia].
Qed.

(** A process calls [resize_rows] and [apply_filter] within their
    preconditions: lines 136-139 have a defined result on every block of
    the size that the scatter delivers, as long as the products of lines
    22, 24 and 136 fit an [int]. *)
Lemma process_block_defined (localIn : list byte)
    (width height channels newHeight localInHeight : Z) (filterType : string) :
  0 <= width → 0 <= channels → 1 <= height → 0 <= newHeight →
  0 <= localInHeight <= height →
  Z.of_nat (length localIn) = width * localInHeight * channels →
  Z.of_nat (length localIn) <= Cxx.INT_MAX →
  newHeight * localInHeight <= Cxx.INT_MAX →
  width * newHeight <= Cxx.INT_MAX →
  width * newHeight * channels <= Cxx.INT_MAX →
  ∃ out,
    process_block localIn width height channels newHeight localInHeight filterType
    = Some (filter_pixel filterType <$> out)
    ∧ resize_rows localIn width localInHeight
        ((newHeight * localInHeight) / height) channels = Some out
    ∧ Z.of_nat (length out)
      = width * ((newHeight * localInHeight) / height) * channels.
Proof.
  intros Hw Hc Hh Hn Hl Hlen Hdata Hprod Hrow Hout.
  unfold process_block. rewrite local_out_height_fits by lia. cbn.
  set (lout := (newHeight * localInHeight) / height).
  assert (0 <= lout <= newHeight) as Hlout.
  { split; [apply Z.div_pos; nia|]. apply Z.div_le_upper_bound; nia. }
  destruct (resize_rows_spec localIn width localInHeight lout channels)
    as (out & Hr & Hsize & _); [done|done|done| |lia| |lia| | |].
  - intros Hpos. destruct (decide (localInHeight = 0)) as [->|]; [|lia].
    unfold lout in Hpos. rewrite Z.mul_0_r, Z.div_0_l in Hpos; lia.
  - assert (width * lout <= width * newHeight) by nia.
    assert (width * lout * channels <= width * newHeight * channels) by nia. lia.
  - nia.
  - assert (lout * localInHeight <= newHeight * localInHeight) by nia. nia.
  - exists out. rewrite Hr. cbn. rewrite apply_filter_map by lia. done.
Qed.

(** ** The row resampler: claims *)

(** A block of 46342 rows of one byte, resampled to its own height: the
    product of line 24 exceeds [INT_MAX] at row 46340. *)
Lemma resize_rows_46342_rows (b : byte) :
  resize_rows (replicate (Z.to_nat 46342) b) 1 46342 46342 1 = None.
Proof.
  apply (resize_rows_src_overflow _ 1 46342 46342 1) with (y0 := 46340);
    unfold Cxx.INT_MAX; try lia.
  rewrite length_replicate. lia.
Qed.

(** C3, as the specification states it, fails on an empty input block
    ([inHeight = 0]) when a row of output is asked for: the block has the
    stated size [width * inHeight * channels = 0], [outHeight >= 1], and
    the first copy reads [data[0]] outside the block.  It also fails where
    the [int] arithmetic of line 24 overflows: on a block of 46342 rows of
    one byte the call has no defined result. *)
Lemma resize_rows_empty_input_counterexample :
  (Z.of_nat (length (@nil byte)) = 1 * 0 * 1
   ∧ 1 <= 1
   ∧ resize_rows [] 1 0 1 1 = None)
  ∧ (Z.of_nat (length (replicate (Z.to_nat 46342) x00)) = 1 * 46342 * 1
     ∧ 1 <= 46342
     ∧ resize_rows (replicate (Z.to_nat 46342) x00) 1 46342 46342 1 = None).
Proof.
  split.
  - vm_compute. repeat split; congruence.
  - split; [rewrite length_replicate; lia|]. split; [lia|].
    apply resize_rows_46342_rows.
Qed.

(** C3, amended: for every input block of size
    [width * inHeight * channels] with [inHeight >= 1] and every
    [outHeight >= 1], as long as the sizes of both blocks and the product
    [(outHeight - 1) * inHeight] fit an [int], [resize_rows] returns a
    block of size [width * outHeight * channels] whose byte at [(y, x, c)]
    is the input byte at [(floor(y * inHeight / outHeight), x, c)], a row
    of the input; width and channel count are those of the input. *)
Theorem resize_rows_nearest_row (data : list byte)
    (width inHeight outHeight channels : Z) :
  0 <= width → 0 <= channels → 1 <= inHeight → 1 <= outHeight →
  Z.of_nat (length data) = width * inHeight * channels →
  Z.of_nat (length data) <= Cxx.INT_MAX →
  width * outHeight <= Cxx.INT_MAX →
  width * outHeight * channels <= Cxx.INT_MAX →
  (outHeight - 1) * inHeight <= Cxx.INT_MAX →
  ∃ out,
    resize_rows data width inHeight outHeight channels = Some out
    ∧ Z.of_nat (length out) = width * outHeight * channels
    ∧ ∀ y x c, 0 <= y < outHeight → 0 <= x < width → 0 <= c < channels →
        0 <= (y * inHeight) / outHeight < inHeight
        ∧ ∃ b,
            data !! Z.to_nat (flat_index width channels ((y * inHeight) / outHeight) x c) = Some b
            ∧ out !! Z.to_nat (flat_index width channels y x c) = Some b.
Proof.
  intros Hw Hc Hin Hout Hlen Hdata Hrow Hsize Hsrc.
  destruct (resize_rows_spec data width inHeight outHeight channels)
    as (out & Hr & Hlo & Hall); [done..|lia|lia|done|lia|done|done|].
  exists out. split; [done|]. split; [done|].
  intros y x c Hy Hx Hc'.
  destruct (src_row_bounds inHeight outHeight y) as [Hq Hsrc']; [done..|].
  split; [done|]. rewrite <- Hq. apply Hall; [done..|].
  pose proof (flat_index_bounds width channels outHeight y x c Hy Hx Hc').
  unfold flat_index in *. lia.
Qed.

Lemma resize_rows_nearest_row_witness :
  ∃ out,
    resize_rows [x0a; x0b; x14; x15; x1e; x1f] 1 3 2 2 = Some out
    ∧ Z.of_nat (length out) = 1 * 2 * 2
    ∧ ∀ y x c, 0 <= y < 2 → 0 <= x < 1 → 0 <= c < 2 →
        0 <= (y * 3) / 2 < 3
        ∧ ∃ b,
            [x0a; x0b; x14; x15; x1e; x1f]
              !! Z.to_nat (flat_index 1 2 ((y * 3) / 2) x c) = Some b
            ∧ out !! Z.to_nat (flat_index 1 2 y x c) = Some b.
Proof.
  apply (resize_rows_nearest_row [x0a; x0b; x14; x15; x1e; x1f] 1 3 2 2);
    [lia|lia|lia|lia|reflexivity|by vm_compute..].
Defined.

(** The loop invariant, once it covers the whole output, determines the
    output. *)
Lemma flat_index_decompose (width channels rows n : Z) :
  0 < width → 0 < channels → 0 <= n < width * rows * channels →
  ∃ y x c, 0 <= y < rows ∧ 0 <= x < width ∧ 0 <= c < channels
           ∧ flat_index width channels y x c = n.
Proof.
  intros Hw Hc Hn.
  pose proof (Z.div_mod n channels ltac:(lia)) as Hdm.
  pose proof (Z.mod_pos_bound n channels Hc) as Hcb.
  pose proof (Z.div_mod (n / channels) width ltac:(lia)) as Ha.
  pose proof (Z.mod_pos_bound (n / channels) width Hw) as Hxb.
  assert (0 <= n / channels < width * rows) as Hab.
  { split; [apply Z.div_pos; lia|apply Z.div_lt_upper_bound; lia]. }
  assert (0 <= n / channels / width < rows) as Hyb.
  { split; [apply Z.div_pos; lia|apply Z.div_lt_upper_bound; lia]. }
  exists (n / channels / width), ((n / channels) `mod` width), (n `mod` channels).
  unfold flat_index. repeat split; lia.
Qed.

Lemma resized_upto_unique (data out1 out2 : list byte)
    (width inHeight outHeight channels : Z) :
  0 <= width → 0 <= channels →
  resized_upto data out1 width inHeight outHeight channels
    (flat_index width channels outHeight 0 0) →
  resized_upto data out2 width inHeight outHeight channels
    (flat_index width channels outHeight 0 0) →
  out1 = out2.
Proof.
  intros Hw Hc [Hl1 H1] [Hl2 H2]. apply list_eq. intros i.
  destruct (decide (Z.of_nat i < width * outHeight * channels)) as [Hi|Hi].
  - assert (0 < width) by (destruct (decide (width = 0)) as [->|]; lia).
    assert (0 < channels) by (destruct (decide (channels = 0)) as [->|]; lia).
    destruct (flat_index_decompose width channels outHeight (Z.of_nat i))
      as (y & x & c & Hy & Hx & Hc' & Hflat); [done|done|lia|].
    assert (flat_index width channels y x c < flat_index width channels outHeight 0 0)
      as Hlt by (rewrite Hflat; unfold flat_index; lia).
    destruct (H1 y x c) as (b1 & Hd1 & Ho1); [done..|].
    destruct (H2 y x c) as (b2 & Hd2 & Ho2); [done..|].
    rewrite Hflat, Nat2Z.id in Ho1, Ho2. congruence.
  - rewrite !lookup_ge_None_2 by lia. done.
Qed.

(** Resampling to the height of the input returns the input, also for an
    empty block. *)
Lemma resize_rows_id (data : list byte) (width h channels : Z) :
  0 <= width → 0 <= channels → 0 <= h →
  Z.of_nat (length data) = width * h * channels →
  Z.of_nat (length data) <= Cxx.INT_MAX →
  width * h <= Cxx.INT_MAX → (h - 1) * h <= Cxx.INT_MAX →
  resize_rows data width h h channels = Some data.
Proof.
  intros Hw Hc Hh Hlen Hdata Hrow Hsrc.
  destruct (resize_rows_spec data width h h channels)
    as (out & -> & Hres); [done..|lia|lia|done|done|done|]. f_equal.
  apply (resized_upto_unique data out data width h h channels); [done..|].
  split; [done|]. intros y x c Hy Hx Hc' _.
  rewrite Z.quot_mul by lia.
  pose proof (flat_index_bounds width channels h y x c Hy Hx Hc').
  destruct (lookup_lt_is_Some_2 data (Z.to_nat (flat_index width channels y x c)))
    as [b Hb]; [lia|]. by exists b.
Qed.

(** C7, as the specification states it, fails where the [int] arithmetic
    of line 24 overflows: a block of 46342 rows of one byte has the stated
    size and [h >= 1], and resampling it to its own height has no defined
    result ([46340 * 46342] exceeds [INT_MAX]). *)
Lemma resize_rows_same_height_counterexample :
  Z.of_nat (length (replicate (Z.to_nat 46342) x01)) = 1 * 46342 * 1
  ∧ 1 <= 46342
  ∧ resize_rows (replicate (Z.to_nat 46342) x01) 1 46342 46342 1
    ≠ Some (replicate (Z.to_nat 46342) x01).
Proof.
  split; [rewrite length_replicate; lia|]. split; [lia|].
  by rewrite resize_rows_46342_rows.
Qed.

(** C7, amended: on a block of size [width * h * channels] with [h >= 1],
    as long as the size of the block and the product [(h - 1) * h] fit an
    [int] (that is, up to 46341 rows), resampling to the same height
    returns the block itself. *)
Theorem resize_rows_same_height (data : list byte) (width h channels : Z) :
  0 <= width → 0 <= channels → 1 <= h →
  Z.of_nat (length data) = width * h * channels →
  Z.of_nat (length data) <= Cxx.INT_MAX →
  width * h <= Cxx.INT_MAX → (h - 1) * h <= Cxx.INT_MAX →
  resize_rows data width h h channels = Some data.
Proof. intros. apply resize_rows_id; [done|done|lia|done..]. Qed.

Lemma resize_rows_same_height_witness :
  resize_rows [x01; x02; x03; x04; x05; x06] 3 2 2 1 = Some [x01; x02; x03; x04; x05; x06].
Proof.
  apply (resize_rows_same_height [x01; x02; x03; x04; x05; x06] 3 2 1);
    [lia|lia|lia|reflexivity|by vm_compute..].
Defined.

(** With no output row asked for, [resize_rows] returns the empty block
    without entering its loops, whatever it is given. *)
Lemma resize_rows_no_rows (data : list byte) (width inHeight channels : Z) :
  resize_rows data width inHeight 0 channels = Some [].
Proof. unfold resize_rows. by rewrite Z.mul_0_r. Qed.

Lemma local_out_height_zero (newHeight height : Z) :
  height ≠ 0 → local_out_height newHeight height 0 = Some 0.
Proof.
  intros Hh. unfold local_out_height. rewrite Z.mul_0_r.
  rewrite int_fits by done. simpl. unfold Cxx.div.
  rewrite decide_False by done. simpl. rewrite Z.quot_0_l by done.
  by apply int_fits.
Qed.

(** C5: with more processes than rows, every rank from [height] on is
    assigned zero input rows and computes zero output rows; on its empty
    block lines 136-139 return the empty block.  The division of line 24,
    which would be undefined for [outHeight = 0], is inside a loop that
    does not run. *)
Theorem zero_row_worker_empty_output
    (height newHeight size rank width channels : Z) (filterType : string) :
  1 <= height → height < size → height <= rank < size →
  local_rows height size rank = Some {| localInHeight := 0; startRow := height |}
  ∧ local_out_height newHeight height 0 = Some 0
  ∧ (∀ y inHeight, Cxx.div (y * inHeight) 0 = None)
  ∧ (∀ data inHeight, resize_rows data width inHeight 0 channels = Some [])
  ∧ process_block [] width height channels newHeight 0 filterType = Some [].
Proof.
  intros Hh Hs Hr. split; [|split; [|split; [|split]]].
  - unfold local_rows, Cxx.div, Cxx.rem. rewrite !decide_False by lia. cbn.
    rewrite Z.quot_small, Z.rem_small by lia.
    rewrite decide_False by lia. do 2 f_equal. lia.
  - apply local_out_height_zero. lia.
  - done.
  - intros. apply resize_rows_no_rows.
  - unfold process_block. rewrite local_out_height_zero by lia. cbn.
    rewrite resize_rows_no_rows. cbn. apply apply_filter_map. cbn. lia.
Qed.

Lemma zero_row_worker_empty_output_witness :
  local_rows 2 4 3 = Some {| localInHeight := 0; startRow := 2 |}
  ∧ local_out_height 2 2 0 = Some 0
  ∧ (∀ y inHeight, Cxx.div (y * inHeight) 0 = None)
  ∧ (∀ data inHeight, resize_rows data 5 inHeight 0 3 = Some [])
  ∧ process_block [] 5 2 3 2 0 "invert" = Some [].
Proof. apply (zero_row_worker_empty_output 2 2 4 3 5 3 "invert"); lia. Defined.

(** C10, as the specification states it, fails where the [int]
    arithmetic of line 24 overflows: a buffer of 46342 rows of one byte
    has exactly [width * inHeight * channels] bytes and a positive
    [inHeight], yet the source row of output row 46340 is not computed
    ([46340 * 46342] exceeds [INT_MAX]) and the call has no defined
    result, let alone reads that are known to be in bounds. *)
Lemma resize_rows_reads_counterexample :
  Z.of_nat (length (replicate (Z.to_nat 46342) x02)) = 1 * 46342 * 1
  ∧ (1 <= 46342 → 1 <= 46342)
  ∧ 0 <= 46340 < 46342
  ∧ Cxx.int (46340 * 46342) = None
  ∧ ¬ is_Some (resize_rows (replicate (Z.to_nat 46342) x02) 1 46342 46342 1).
Proof.
  split; [rewrite length_replicate; lia|]. split; [done|]. split; [lia|].
  split; [done|]. rewrite resize_rows_46342_rows. by intros [? ?].
Qed.

(** C10, amended: when the input block has exactly
    [width * inHeight * channels] bytes, a positive [outHeight] comes with
    a positive [inHeight], and the size of the block and the product
    [(outHeight - 1) * inHeight] fit an [int], every source row is computed
    without overflow and is a row of the block, and every read of line 28
    is inside it, so that [resize_rows] has a defined result (given that
    the size of the output fits as well).  The program meets the
    precondition on the rows: zero input rows give zero output rows, and
    lines 136-139 are defined on every block the scatter delivers as long
    as the products of lines 22 and 136 fit. *)
Theorem resize_rows_reads_in_bounds (data : list byte)
    (width inHeight outHeight channels : Z) :
  Z.of_nat (length data) = width * inHeight * channels →
  (1 <= outHeight → 1 <= inHeight) →
  Z.of_nat (length data) <= Cxx.INT_MAX →
  (outHeight - 1) * inHeight <= Cxx.INT_MAX →
  (∀ y x c, 0 <= y < outHeight → 0 <= x < width → 0 <= c < channels →
     (Cxx.int (y * inHeight) ≫= λ p, Cxx.div p outHeight ≫= Cxx.int)
     = Some ((y * inHeight) / outHeight)
     ∧ 0 <= (y * inHeight) / outHeight < inHeight
     ∧ int_index width channels ((y * inHeight) / outHeight) x c
       = Some (flat_index width channels ((y * inHeight) / outHeight) x c)
     ∧ 0 <= flat_index width channels ((y * inHeight) / outHeight) x c
         < Z.of_nat (length data)
     ∧ is_Some (Cxx.vec_get data
                  (flat_index width channels ((y * inHeight) / outHeight) x c)))
  ∧ (0 <= width → 0 <= channels → 0 <= outHeight →
     width * outHeight <= Cxx.INT_MAX →
     width * outHeight * channels <= Cxx.INT_MAX →
     is_Some (resize_rows data width inHeight outHeight channels))
  ∧ (∀ newHeight height, height ≠ 0 → local_out_height newHeight height 0 = Some 0)
  ∧ (∀ height newHeight filterType,
       0 <= width → 0 <= channels → 1 <= height → 0 <= newHeight →
       0 <= inHeight <= height →
       newHeight * inHeight <= Cxx.INT_MAX →
       width * newHeight <= Cxx.INT_MAX →
       width * newHeight * channels <= Cxx.INT_MAX →
       is_Some (process_block data width height channels newHeight inHeight filterType)).
Proof.
  intros Hlen Hin Hdata Hsrcfit. split; [|split; [|split]].
  - intros y x c Hy Hx Hc.
    destruct (src_row_bounds inHeight outHeight y) as [Hq Hsrc]; [done|lia|].
    pose proof (flat_index_bounds width channels inHeight _ x c Hsrc Hx Hc) as Hrd.
    rewrite <- Hlen in Hrd.
    assert (0 <= y * inHeight <= (outHeight - 1) * inHeight) by nia.
    split; [|split; [done|split; [|split; [done|]]]].
    + apply int_div_nonneg; lia.
    + apply int_index_fits; lia.
    + unfold Cxx.vec_get. rewrite decide_True by lia.
      apply lookup_lt_is_Some_2. lia.
  - intros Hw Hc Hout Hrow Hsize.
    destruct (resize_rows_spec data width inHeight outHeight channels)
      as (out & -> & _); [done..|lia|done|done|done|done|done].
  - intros. by apply local_out_height_zero.
  - intros height newHeight filterType Hw Hc Hh Hn Hl Hp Hr Hs.
    destruct (process_block_defined data width height channels newHeight inHeight
                filterType) as (out & -> & _); done.
Qed.

Lemma resize_rows_reads_in_bounds_witness :
  is_Some (resize_rows [x01; x02] 1 2 3 1).
Proof.
  apply (resize_rows_reads_in_bounds [x01; x02] 1 2 3 1);
    [reflexivity|lia|by vm_compute|by vm_compute|lia|lia|lia
    |by vm_compute|by vm_compute].
Defined.
(** ** Sums and prefixes *)

Lemma sumZ_app (l k : list Z) : sumZ (l ++ k) = sumZ l + sumZ k.
Proof. unfold sumZ. induction l as [|x l IH]; cbn; lia. Qed.

Lemma take_seqZ (i : nat) (n : Z) :
  Z.of_nat i <= n → take i (seqZ 0 n) = seqZ 0 (Z.of_nat i).
Proof.
  intros Hi. replace n with (Z.of_nat i + (n - Z.of_nat i)) by lia.
  rewrite seqZ_app by lia. apply take_app_length'.
  rewrite length_seqZ. lia.
Qed.

(** A sequence of counts whose running total is [st]. *)
Lemma sumZ_running_total (g st : Z → Z) (n : nat) :
  st 0 = 0 →
  (∀ i, 0 <= i → st (i + 1) = st i + g i) →
  sumZ (g <$> seqZ 0 (Z.of_nat n)) = st (Z.of_nat n).
Proof.
  intros H0 Hstep. induction n as [|n IH]; [change (Z.of_nat 0) with 0; by rewrite H0|].
  rewrite seqZ_S, fmap_app, sumZ_app, IH.
  replace (Z.of_nat (S n)) with (Z.of_nat n + 1) by lia.
  rewrite Hstep by lia. unfold sumZ. cbn [fmap list_fmap foldr].
  rewrite Z.add_0_l. lia.
Qed.

Lemma mapM_total {A B} (F : A → option B) (f : A → B) (l : list A) :
  (∀ x, x ∈ l → F x = Some (f x)) → mapM F l = Some (f <$> l).
Proof.
  intros HF. apply mapM_Some, Forall2_fmap_r, Forall_Forall2_diag, Forall_forall.
  exact HF.
Qed.

(** A row below the total lies in exactly one interval of a running
    total. *)
Lemma running_total_cover (st : Z → Z) (row : Z) (n : nat) :
  st 0 <= row < st (Z.of_nat n) →
  ∃ i, 0 <= i < Z.of_nat n ∧ st i <= row < st (i + 1).
Proof.
  induction n as [|n IH]; intros Hrow; [change (Z.of_nat 0) with 0 in Hrow; lia|].
  destruct (decide (row < st (Z.of_nat n))) as [Hlt|Hge].
  - destruct IH as (i & Hi & Hin); [lia|]. exists i. split; [lia|done].
  - exists (Z.of_nat n). split; [lia|].
    replace (Z.of_nat n + 1) with (Z.of_nat (S n)) by lia. lia.
Qed.

(** ** The partition of the input rows *)

Lemma plan_in_start_0 (height size : Z) :
  1 <= size → 0 <= height → plan_in_start height size 0 = 0.
Proof.
  intros Hs Hh. unfold plan_in_start.
  pose proof (Z.mod_pos_bound height size ltac:(lia)). lia.
Qed.

Lemma plan_in_start_succ (height size i : Z) :
  plan_in_start height size (i + 1)
  = plan_in_start height size i + plan_in_rows height size i.
Proof. unfold plan_in_start, plan_in_rows. case_decide; lia. Qed.

Lemma plan_in_start_end (height size : Z) :
  1 <= size → plan_in_start height size size = height.
Proof.
  intros Hs. unfold plan_in_start.
  pose proof (Z.mod_pos_bound height size ltac:(lia)).
  pose proof (Z.div_mod height size ltac:(lia)). lia.
Qed.

Lemma plan_in_rows_nonneg (height size i : Z) :
  1 <= size → 0 <= height → 0 <= plan_in_rows height size i.
Proof.
  intros Hs Hh. unfold plan_in_rows.
  pose proof (Z.div_pos height size ltac:(lia) ltac:(lia)). case_decide; lia.
Qed.

Lemma plan_in_start_mono (height size i j : Z) :
  1 <= size → 0 <= height → i <= j →
  plan_in_start height size i <= plan_in_start height size j.
Proof.
  intros Hs Hh Hij. unfold plan_in_start.
  pose proof (Z.div_pos height size ltac:(lia) ltac:(lia)). nia.
Qed.

(** Lines 115-118 compute the formulas of the specification. *)
Lemma local_rows_plan (height size rank : Z) :
  1 <= size → 0 <= height →
  local_rows height size rank
  = Some {| localInHeight := plan_in_rows height size rank;
            startRow := plan_in_start height size rank |}.
Proof.
  intros Hs Hh. unfold local_rows, Cxx.div, Cxx.rem.
  rewrite !decide_False by lia. cbn.
  rewrite Z.quot_div_nonneg, Z.rem_mod_nonneg by lia. done.
Qed.

Lemma all_local_rows_plan (height size : Z) :
  1 <= size → 0 <= height →
  all_local_rows height size
  = Some ((λ i, {| localInHeight := plan_in_rows height size i;
                   startRow := plan_in_start height size i |}) <$> seqZ 0 size).
Proof.
  intros Hs Hh. unfold all_local_rows. apply mapM_total.
  intros i _. by apply local_rows_plan.
Qed.

(** C1: for [height >= 1] and [size >= 1] the row ranges that lines
    115-118 give to ranks [0 .. size-1] are those of the specification
    ([base + 1] rows below [remainder], [base] rows from there on, starting
    at [i * base + min(i, remainder)]); each starts where the rows of the
    ranks before it end, the counts add up to [height], and every row of
    [[0, height)] belongs to the range of exactly one rank. *)
Theorem input_rows_tile (height size : Z) :
  1 <= height → 1 <= size →
  ∃ rows : list row_range,
    all_local_rows height size = Some rows
    ∧ length rows = Z.to_nat size
    ∧ (∀ i, 0 <= i < size →
         rows !! Z.to_nat i
         = Some {| localInHeight := plan_in_rows height size i;
                   startRow := plan_in_start height size i |})
    ∧ (∀ (i : nat) r, rows !! i = Some r →
         0 <= localInHeight r
         ∧ startRow r = sumZ (localInHeight <$> take i rows))
    ∧ sumZ (localInHeight <$> rows) = height
    ∧ (∀ row, 0 <= row < height →
         ∃ (i : nat) r,
           rows !! i = Some r
           ∧ startRow r <= row < startRow r + localInHeight r
           ∧ ∀ (j : nat) r', rows !! j = Some r' →
               startRow r' <= row < startRow r' + localInHeight r' → j = i).
Proof.
  intros Hh Hs.
  set (f := λ i, {| localInHeight := plan_in_rows height size i;
                    startRow := plan_in_start height size i |}).
  assert (∀ (i : nat) r, (f <$> seqZ 0 size) !! i = Some r →
            Z.of_nat i < size ∧ r = f (Z.of_nat i)) as Hlook.
  { intros i r Hr. rewrite list_lookup_fmap in Hr.
    destruct (seqZ 0 size !! i) as [k|] eqn:Hk; [|done].
    apply lookup_seqZ in Hk as [-> Hi]. rewrite Z.add_0_l in Hr.
    split; [lia|by injection Hr]. }
  assert (∀ n : nat, sumZ (plan_in_rows height size <$> seqZ 0 (Z.of_nat n))
                     = plan_in_start height size (Z.of_nat n)) as Hsum.
  { intros n. apply (sumZ_running_total _ (plan_in_start height size)).
    - apply plan_in_start_0; lia.
    - intros i _. apply plan_in_start_succ. }
  exists (f <$> seqZ 0 size).
  split; [apply all_local_rows_plan; lia|].
  split; [by rewrite length_fmap, length_seqZ|].
  split; [|split; [|split]].
  - intros i Hi. rewrite list_lookup_fmap, lookup_seqZ_lt by lia.
    by replace (0 + Z.of_nat (Z.to_nat i)) with i by lia.
  - intros i r Hr. apply Hlook in Hr as [Hi ->]. cbn.
    split; [apply plan_in_rows_nonneg; lia|].
    rewrite <- fmap_take, take_seqZ by lia.
    rewrite <- list_fmap_compose. symmetry. apply Hsum.
  - rewrite <- list_fmap_compose.
    pose proof (Hsum (Z.to_nat size)) as Htot. rewrite Z2Nat.id in Htot by lia.
    etransitivity; [exact Htot|]. apply plan_in_start_end. lia.
  - intros row Hrow.
    destruct (running_total_cover (plan_in_start height size) row (Z.to_nat size))
      as (i & Hi & Hin).
    { rewrite plan_in_start_0 by lia.
      replace (Z.of_nat (Z.to_nat size)) with size by lia.
      rewrite plan_in_start_end by lia. done. }
    rewrite plan_in_start_succ in Hin.
    exists (Z.to_nat i), (f i). split; [|split].
    + rewrite list_lookup_fmap, lookup_seqZ_lt by lia.
      by replace (0 + Z.of_nat (Z.to_nat i)) with i by lia.
    + done.
    + intros j r' Hr' Hin'. apply Hlook in Hr' as [Hj ->]. cbn in Hin'.
      rewrite <- plan_in_start_succ in Hin, Hin'.
      destruct (Z.lt_trichotomy (Z.of_nat j) i) as [Hlt|[Heq|Hlt]]; [|lia|].
      * pose proof (plan_in_start_mono height size (Z.of_nat j + 1) i
                      ltac:(lia) ltac:(lia) ltac:(lia)). lia.
      * pose proof (plan_in_start_mono height size (i + 1) (Z.of_nat j)
                      ltac:(lia) ltac:(lia) ltac:(lia)). lia.
Qed.

Lemma input_rows_tile_witness :
  ∃ rows : list row_range,
    all_local_rows 10 4 = Some rows
    ∧ length rows = Z.to_nat 4
    ∧ sumZ (localInHeight <$> rows) = 10.
Proof.
  destruct (input_rows_tile 10 4) as (rows & Hr & Hl & _ & _ & Hs & _); [lia|lia|].
  exists rows. split; [exact Hr|]. split; [exact Hl|exact Hs].
Defined.

(** ** The output rows and the gather tables *)

Lemma sumZ_seqZ_snoc (g : Z → Z) (i : Z) :
  0 <= i → sumZ (g <$> seqZ 0 (i + 1)) = sumZ (g <$> seqZ 0 i) + g i.
Proof.
  intros Hi. rewrite seqZ_app, fmap_app, sumZ_app by lia.
  rewrite Z.add_0_l, (seqZ_cons i 1), (seqZ_nil (Z.succ i)) by lia.
  change (sumZ (g <$> [i])) with (g i + 0). lia.
Qed.

Lemma sumZ_scale (k : Z) (l : list Z) : sumZ ((λ r, r * k) <$> l) = sumZ l * k.
Proof. unfold sumZ. induction l as [|x l IH]; cbn; lia. Qed.

(** Truncation loses less than one row per worker. *)
Lemma floor_sum_bounds (N H : Z) (ls : list Z) :
  0 < H → 0 <= N → Forall (λ h, 0 <= h) ls →
  H * sumZ ((λ h, (N * h) / H) <$> ls) <= N * sumZ ls
  ∧ N * sumZ ls <= H * sumZ ((λ h, (N * h) / H) <$> ls) + Z.of_nat (length ls) * (H - 1).
Proof.
  intros HH HN Hls. induction Hls as [|h ls Hh _ IH]; [cbn; lia|].
  change (sumZ (h :: ls)) with (h + sumZ ls).
  change (sumZ ((λ h, (N * h) / H) <$> h :: ls))
    with ((N * h) / H + sumZ ((λ h, (N * h) / H) <$> ls)).
  pose proof (Z.div_mod (N * h) H ltac:(lia)) as Hdm.
  pose proof (Z.mod_pos_bound (N * h) H HH) as Hmb.
  rewrite length_cons. nia.
Qed.

(** On non-negative operands [/] is flooring division. *)
Lemma div_nonneg (a b : Z) : 0 <= a → 0 < b → Cxx.div a b = Some (a / b).
Proof.
  intros Ha Hb. unfold Cxx.div. rewrite decide_False by lia.
  by rewrite Z.quot_div_nonneg.
Qed.

Lemma sumZ_nonneg (l : list Z) : Forall (λ o, 0 <= o) l → 0 <= sumZ l.
Proof.
  induction 1 as [|o l Ho _ IH]; [done|].
  change (sumZ (o :: l)) with (o + sumZ l). lia.
Qed.

(** Rank 0 has the largest share of the rows. *)
Lemma plan_in_rows_le_first (height size rank : Z) :
  1 <= size → 0 <= rank →
  plan_in_rows height size rank <= plan_in_rows height size 0.
Proof. intros Hs Hr. unfold plan_in_rows. repeat case_decide; lia. Qed.

Lemma plan_in_rows_le_height (height size rank : Z) :
  1 <= size → 1 <= height → 0 <= rank →
  plan_in_rows height size rank <= height.
Proof.
  intros Hs Hh Hr. unfold plan_in_rows.
  pose proof (Z.div_mod height size ltac:(lia)).
  pose proof (Z.mod_pos_bound height size ltac:(lia)).
  assert (0 <= height / size) by (apply Z.div_pos; lia).
  case_decide; nia.
Qed.

Lemma plan_out_rows_bounds (height newHeight size rank : Z) :
  1 <= height → 0 <= newHeight → 1 <= size → 0 <= rank →
  0 <= plan_out_rows height newHeight size rank <= newHeight.
Proof.
  intros Hh Hn Hs Hr. unfold plan_out_rows.
  pose proof (plan_in_rows_nonneg height size rank ltac:(lia) ltac:(lia)).
  pose proof (plan_in_rows_le_height height size rank Hs Hh Hr).
  split; [apply Z.div_pos; nia|]. apply Z.div_le_upper_bound; nia.
Qed.

(** Line 136 computes the formula of the specification, when its product
    fits an [int]. *)
Lemma local_out_height_plan (height newHeight size rank : Z) :
  1 <= height → 0 <= newHeight → 1 <= size →
  newHeight * plan_in_rows height size rank <= Cxx.INT_MAX →
  (local_rows height size rank
     ≫= λ r, local_out_height newHeight height (localInHeight r))
  = Some (plan_out_rows height newHeight size rank).
Proof.
  intros Hh Hn Hs Hfit. rewrite local_rows_plan by lia. cbn.
  pose proof (plan_in_rows_nonneg height size rank ltac:(lia) ltac:(lia)).
  by rewrite local_out_height_fits by lia.
Qed.

(** The output rows of the ranks below [i] are at most [newHeight]. *)
Lemma prefix_out_rows_le (height newHeight size : Z) (i : Z) :
  1 <= height → 0 <= newHeight → 1 <= size → 0 <= i <= size →
  0 <= sumZ (plan_out_rows height newHeight size <$> seqZ 0 i) <= newHeight.
Proof.
  intros Hh Hn Hs Hi.
  destruct (floor_sum_bounds newHeight height
              (plan_in_rows height size <$> seqZ 0 i)) as [Hup _]; [lia|done| |].
  { apply Forall_fmap, Forall_forall. intros j _. apply plan_in_rows_nonneg; lia. }
  rewrite <- list_fmap_compose in Hup.
  change ((λ h, newHeight * h / height) ∘ plan_in_rows height size)
    with (plan_out_rows height newHeight size) in Hup.
  pose proof (sumZ_running_total (plan_in_rows height size)
                (plan_in_start height size) (Z.to_nat i)
                (plan_in_start_0 height size ltac:(lia) ltac:(lia))
                (λ j _, plan_in_start_succ height size j)) as Htot.
  rewrite Z2Nat.id in Htot by lia. rewrite Htot in Hup.
  pose proof (plan_in_start_mono height size i size ltac:(lia) ltac:(lia) ltac:(lia))
    as Hmono.
  rewrite plan_in_start_end in Hmono by lia.
  split; [|nia].
  apply sumZ_nonneg, Forall_fmap, Forall_forall. intros j Hj%elem_of_seqZ.
  apply plan_out_rows_bounds; lia.
Qed.

Lemma gather_prefix_scaled (height newHeight size width channels i : Z) :
  gather_prefix height newHeight size width channels i
  = sumZ (plan_out_rows height newHeight size <$> seqZ 0 i) * (width * channels).
Proof.
  unfold gather_prefix, gather_count. rewrite <- sumZ_scale, <- list_fmap_compose.
  f_equal. apply list_fmap_ext. intros. cbn. lia.
Qed.

Section gather.
Variables (height newHeight size width channels : Z).
Hypothesis height_pos : 1 <= height.
Hypothesis newHeight_nonneg : 0 <= newHeight.
Hypothesis size_pos : 1 <= size.

(** Partial correctness of one iteration of lines 143-149: if it has a
    result, the entries of rank [i] are the formulas and [offset] is
    advanced. *)
Lemma gather_step_sound (i : Z) (st st' : list Z * list Z * Z) :
  0 <= i < size →
  gather_inv height newHeight size width channels i st →
  gather_step height newHeight size width channels (Z.rem height size) i st = Some st' →
  gather_inv height newHeight size width channels (i + 1) st'.
Proof.
  destruct st as [[cs ds] off]. intros Hi (Hcs & Hds & Hoff & Hfilled).
  pose proof (plan_in_rows_nonneg height size i ltac:(lia) ltac:(lia)) as Hin.
  unfold gather_step. rewrite div_nonneg by lia. cbn.
  rewrite Z.rem_mod_nonneg by lia.
  fold (plan_in_rows height size i). intros Hstep.
  destruct (Cxx.int (newHeight * plan_in_rows height size i)) as [p|] eqn:Hp; [|done].
  apply int_Some in Hp as [-> _]. cbn in Hstep.
  rewrite div_nonneg in Hstep by nia. cbn in Hstep.
  fold (plan_out_rows height newHeight size i) in Hstep.
  destruct (Cxx.int (plan_out_rows height newHeight size i)) as [o|] eqn:Ho; [|done].
  apply int_Some in Ho as [-> _]. cbn in Hstep.
  destruct (Cxx.int (plan_out_rows height newHeight size i * width)) as [n|] eqn:Hn;
    [|done].
  apply int_Some in Hn as [-> _]. cbn in Hstep.
  destruct (Cxx.int (plan_out_rows height newHeight size i * width * channels))
    as [n|] eqn:Hn; [|done].
  apply int_Some in Hn as [-> _]. cbn in Hstep.
  fold (gather_count height newHeight size width channels i) in Hstep.
  unfold Cxx.vec_set in Hstep. rewrite decide_True in Hstep by lia. cbn in Hstep.
  rewrite decide_True in Hstep by lia. cbn in Hstep.
  unfold Cxx.vec_get in Hstep. rewrite decide_True in Hstep by lia.
  rewrite list_lookup_insert_eq in Hstep by lia. cbn in Hstep.
  destruct (Cxx.int (off + gather_count height newHeight size width channels i))
    as [off'|] eqn:Hoff'; [|done].
  apply int_Some in Hoff' as [-> _]. cbn in Hstep. injection Hstep as <-.
  split; [by rewrite length_insert|]. split; [by rewrite length_insert|].
  split.
  - unfold gather_prefix in *. rewrite sumZ_seqZ_snoc by lia. by rewrite Hoff.
  - intros j Hj. destruct (decide (Z.of_nat j = i)) as [<-|Hne].
    + rewrite Nat2Z.id, !list_lookup_insert_eq by lia. by rewrite Hoff.
    + rewrite !list_lookup_insert_ne by lia. apply Hfilled. lia.
Qed.

(** A result of the loop of lines 143-149 is the two tables of the
    formulas. *)
Lemma gather_tables_sound (recvCounts recvDispls : list Z) :
  gather_tables height newHeight size width channels = Some (recvCounts, recvDispls) →
  recvCounts = gather_count height newHeight size width channels <$> seqZ 0 size
  ∧ recvDispls = gather_prefix height newHeight size width channels <$> seqZ 0 size.
Proof.
  unfold gather_tables, Cxx.rem, Cxx.vec_make.
  rewrite (decide_False (P := size = 0)) by lia. cbn.
  rewrite !(decide_True (P := 0 <= size)) by lia. cbn. intros Hr.
  destruct (Cxx.for_upto size _ _) as [[[cs ds] off]|] eqn:Hloop; [|done].
  cbn in Hr. injection Hr as <- <-.
  unfold Cxx.for_upto in Hloop.
  apply (for_range_sound (gather_inv height newHeight size width channels))
    in Hloop as (Hcs & Hds & _ & Hfilled).
  - rewrite Z.add_0_l, Z2Nat.id in Hfilled by lia.
    split; apply list_eq; intros j; rewrite list_lookup_fmap.
    + destruct (decide (Z.of_nat j < size)) as [Hj|Hj].
      * rewrite lookup_seqZ_lt by done. rewrite Z.add_0_l. by apply Hfilled.
      * rewrite lookup_seqZ_ge by lia. apply lookup_ge_None_2. lia.
    + destruct (decide (Z.of_nat j < size)) as [Hj|Hj].
      * rewrite lookup_seqZ_lt by done. rewrite Z.add_0_l. by apply Hfilled.
      * rewrite lookup_seqZ_ge by lia. apply lookup_ge_None_2. lia.
  - split; [by rewrite length_replicate|]. split; [by rewrite length_replicate|].
    split; [done|]. intros j Hj. lia.
  - intros i st st' Hi. apply gather_step_sound. lia.
Qed.

Hypothesis width_nonneg : 0 <= width.
Hypothesis channels_nonneg : 0 <= channels.
Hypothesis product_fits :
  newHeight * plan_in_rows height size 0 <= Cxx.INT_MAX.
Hypothesis row_fits : newHeight * width <= Cxx.INT_MAX.
Hypothesis out_fits : newHeight * width * channels <= Cxx.INT_MAX.

(** When the products fit, an iteration has a result. *)
Lemma gather_step_inv (i : Z) (st : list Z * list Z * Z) :
  0 <= i < size →
  gather_inv height newHeight size width channels i st →
  ∃ st',
    gather_step height newHeight size width channels (Z.rem height size) i st = Some st'
    ∧ gather_inv height newHeight size width channels (i + 1) st'.
Proof.
  intros Hi Hinv.
  assert (∃ st', gather_step height newHeight size width channels
                   (Z.rem height size) i st = Some st') as [st' Hst'].
  { destruct st as [[cs ds] off]. destruct Hinv as (Hcs & Hds & Hoff & _).
    pose proof (plan_in_rows_nonneg height size i ltac:(lia) ltac:(lia)) as Hin.
    pose proof (plan_in_rows_le_first height size i ltac:(lia) ltac:(lia)) as Hfirst.
    pose proof (plan_out_rows_bounds height newHeight size i
                  height_pos newHeight_nonneg size_pos ltac:(lia)) as Hout.
    pose proof (prefix_out_rows_le height newHeight size (i + 1)
                  height_pos newHeight_nonneg size_pos ltac:(lia)) as Hpre.
    rewrite sumZ_seqZ_snoc in Hpre by lia.
    pose proof (prefix_out_rows_le height newHeight size i
                  height_pos newHeight_nonneg size_pos ltac:(lia)) as Hpre0.
    assert (plan_out_rows height newHeight size i
            <= newHeight * plan_in_rows height size i) as Hquot
      by (unfold plan_out_rows; apply Z.div_le_upper_bound; nia).
    unfold gather_step. rewrite div_nonneg by lia. cbn.
    rewrite Z.rem_mod_nonneg by lia.
    fold (plan_in_rows height size i).
    rewrite int_fits by (unfold Cxx.INT_MIN; nia). cbn.
    rewrite div_nonneg by nia. cbn.
    fold (plan_out_rows height newHeight size i).
    rewrite int_fits by (unfold Cxx.INT_MIN; nia). cbn.
    rewrite int_fits by (unfold Cxx.INT_MIN; nia). cbn.
    rewrite int_fits.
    2:{ unfold Cxx.INT_MIN.
        assert (0 <= plan_out_rows height newHeight size i * width) by nia.
        assert (plan_out_rows height newHeight size i * width <= newHeight * width)
          by nia.
        nia. }
    cbn. unfold Cxx.vec_set. rewrite decide_True by lia. cbn.
    rewrite decide_True by lia. cbn.
    unfold Cxx.vec_get. rewrite decide_True by lia.
    rewrite list_lookup_insert_eq by lia. cbn.
    rewrite int_fits; [by eexists|].
    rewrite Hoff, gather_prefix_scaled.
    set (S0 := sumZ (plan_out_rows height newHeight size <$> seqZ 0 i)) in *.
    set (o := plan_out_rows height newHeight size i) in *.
    assert (0 <= width * channels) by nia.
    assert ((S0 + o) * (width * channels) <= newHeight * (width * channels)) by nia.
    assert (0 <= (S0 + o) * (width * channels)) by nia.
    unfold Cxx.INT_MIN. lia. }
  exists st'. split; [done|]. by apply (gather_step_sound i st).
Qed.

Lemma gather_tables_spec :
  gather_tables height newHeight size width channels
  = Some (gather_count height newHeight size width channels <$> seqZ 0 size,
          gather_prefix height newHeight size width channels <$> seqZ 0 size).
Proof.
  assert (∃ t, gather_tables height newHeight size width channels = Some t)
    as [[rc ds] Ht].
  { unfold gather_tables, Cxx.rem, Cxx.vec_make.
    rewrite (decide_False (P := size = 0)) by lia. cbn.
    rewrite !(decide_True (P := 0 <= size)) by lia. cbn.
    destruct (for_upto_inv (gather_inv height newHeight size width channels)
                (gather_step height newHeight size width channels (Z.rem height size))
                size
                (replicate (Z.to_nat size) 0, replicate (Z.to_nat size) 0, 0))
      as (st & -> & _); [lia| | |by eexists].
    - split; [by rewrite length_replicate|]. split; [by rewrite length_replicate|].
      split; [done|]. intros j Hj. lia.
    - intros i st. apply gather_step_inv. }
  rewrite Ht. by destruct (gather_tables_sound rc ds Ht) as [-> ->].
Qed.

End gather.

Lemma all_out_heights_plan (height newHeight size : Z) :
  1 <= height → 0 <= newHeight → 1 <= size →
  newHeight * plan_in_rows height size 0 <= Cxx.INT_MAX →
  all_out_heights height newHeight size
  = Some (plan_out_rows height newHeight size <$> seqZ 0 size).
Proof.
  intros Hh Hn Hs Hfit. unfold all_out_heights. apply mapM_total.
  intros i Hi%elem_of_seqZ. apply local_out_height_plan; [done..|].
  pose proof (plan_in_rows_le_first height size i ltac:(lia) ltac:(lia)). nia.
Qed.

(** A result of line 136 on every rank is the list of the formulas. *)
Lemma all_out_heights_sound (height newHeight size : Z) (outs : list Z) :
  1 <= height → 0 <= newHeight → 1 <= size →
  all_out_heights height newHeight size = Some outs →
  outs = plan_out_rows height newHeight size <$> seqZ 0 size.
Proof.
  intros Hh Hn Hs Houts. unfold all_out_heights in Houts.
  apply mapM_Some_1 in Houts.
  apply list_eq. intros i. rewrite list_lookup_fmap.
  destruct (decide (Z.of_nat i < size)) as [Hi|Hi].
  - rewrite lookup_seqZ_lt by done. cbn. rewrite Z.add_0_l.
    destruct (Forall2_lookup_l _ _ _ i (0 + Z.of_nat i) Houts) as (o & Ho & Hv).
    { by apply lookup_seqZ_lt. }
    rewrite Ho. f_equal. rewrite Z.add_0_l, local_rows_plan in Hv by lia.
    cbn in Hv. apply local_out_height_Some in Hv as (-> & _ & _).
    pose proof (plan_in_rows_nonneg height size (Z.of_nat i) ltac:(lia) ltac:(lia)).
    unfold plan_out_rows. by rewrite Z.quot_div_nonneg by nia.
  - rewrite lookup_seqZ_ge by lia. cbn. apply lookup_ge_None_2.
    apply Forall2_length in Houts. rewrite length_seqZ in Houts. lia.
Qed.

(** C2, as the specification states it, fails where the [int] product of
    lines 136 and 145 overflows: for a height of 46341 kept on one process
    ([46341 * 46341] exceeds [INT_MAX]) neither the output row count nor
    the gather tables are defined, so there is no sum to bound. *)
Lemma gather_blocks_counterexample :
  1 <= 46341 ∧ 0 <= 46341 ∧ 1 <= 1
  ∧ local_rows 46341 1 0 = Some {| localInHeight := 46341; startRow := 0 |}
  ∧ local_out_height 46341 46341 46341 = None
  ∧ all_out_heights 46341 46341 1 = None
  ∧ gather_tables 46341 46341 1 1 1 = None.
Proof. vm_compute. repeat split; congruence. Qed.

(** C2, amended: for [height >= 1], [newHeight >= 0] and [size >= 1] such
    that [newHeight] times the input rows of rank 0 (the largest share)
    fits an [int], the output row counts
    [floor(newHeight * inputRows / height)] that line 136 gives the ranks
    add up to at most [newHeight] and to at least
    [newHeight - (size - 1)]; and if moreover
    [newHeight * width * channels] fits an [int], in the tables of lines
    143-149 the count of a rank is its output rows times
    [width * channels] and its displacement is the sum of the output rows
    of the ranks before it times [width * channels], so each block starts
    where the previous one ends and no count is negative. *)
Theorem gather_blocks_contiguous (height newHeight size width channels : Z) :
  1 <= height → 0 <= newHeight → 1 <= size →
  newHeight * plan_in_rows height size 0 <= Cxx.INT_MAX →
  ∃ outs : list Z,
    all_out_heights height newHeight size = Some outs
    ∧ length outs = Z.to_nat size
    ∧ (∀ i, 0 <= i < size →
         outs !! Z.to_nat i = Some (plan_out_rows height newHeight size i))
    ∧ sumZ outs <= newHeight
    ∧ newHeight - sumZ outs <= size - 1
    ∧ (0 <= width → 0 <= channels →
       newHeight * width <= Cxx.INT_MAX →
       newHeight * width * channels <= Cxx.INT_MAX →
       ∃ counts displs : list Z,
         gather_tables height newHeight size width channels = Some (counts, displs)
         ∧ counts = (λ r, r * width * channels) <$> outs
         ∧ length displs = Z.to_nat size
         ∧ (∀ i : nat, (i < Z.to_nat size)%nat →
              displs !! i = Some (sumZ (take i outs) * width * channels))
         ∧ (∀ (i : nat) d c, displs !! i = Some d → counts !! i = Some c →
              (S i < Z.to_nat size)%nat → displs !! S i = Some (d + c))
         ∧ Forall (λ c, 0 <= c) counts).
Proof.
  intros Hh Hn Hs Hfit.
  set (outs := plan_out_rows height newHeight size <$> seqZ 0 size).
  assert (∀ i : nat, (i < Z.to_nat size)%nat →
            (gather_prefix height newHeight size width channels <$> seqZ 0 size) !! i
            = Some (sumZ (take i outs) * width * channels)) as Hdispl.
  { intros i Hi. rewrite list_lookup_fmap, lookup_seqZ_lt by lia. cbn.
    rewrite Z.add_0_l. unfold gather_prefix, gather_count, outs.
    rewrite <- fmap_take, take_seqZ by lia.
    rewrite <- sumZ_scale, <- sumZ_scale, <- !list_fmap_compose. done. }
  exists outs.
  split; [by apply all_out_heights_plan|].
  split; [by unfold outs; rewrite length_fmap, length_seqZ|].
  split.
  { intros i Hi. unfold outs. rewrite list_lookup_fmap, lookup_seqZ_lt by lia.
    by replace (0 + Z.of_nat (Z.to_nat i)) with i by lia. }
  assert (sumZ outs <= newHeight ∧ newHeight - sumZ outs <= size - 1) as [Hle Hge].
  { destruct (floor_sum_bounds newHeight height
                (plan_in_rows height size <$> seqZ 0 size)) as [Hup Hlow];
      [lia|done| |].
    { apply Forall_fmap, Forall_forall. intros i _.
      apply plan_in_rows_nonneg; lia. }
    rewrite <- list_fmap_compose in Hup, Hlow.
    change ((λ h, newHeight * h / height) ∘ plan_in_rows height size)
      with (plan_out_rows height newHeight size) in Hup, Hlow.
    fold outs in Hup, Hlow.
    rewrite length_fmap, length_seqZ in Hlow.
    pose proof (sumZ_running_total (plan_in_rows height size)
                  (plan_in_start height size) (Z.to_nat size)
                  (plan_in_start_0 height size ltac:(lia) ltac:(lia))
                  (λ i _, plan_in_start_succ height size i)) as Htot.
    rewrite Z2Nat.id in Htot, Hlow by lia.
    rewrite plan_in_start_end in Htot by lia.
    rewrite Htot in Hup, Hlow. split; nia. }
  split; [done|]. split; [done|].
  intros Hw Hc Hrow Hout.
  exists (gather_count height newHeight size width channels <$> seqZ 0 size),
         (gather_prefix height newHeight size width channels <$> seqZ 0 size).
  split; [by apply gather_tables_spec|].
  split.
  { unfold outs. rewrite <- list_fmap_compose. done. }
  split; [by rewrite length_fmap, length_seqZ|].
  split; [exact Hdispl|].
  split; last first.
  { apply Forall_fmap, Forall_forall. intros i Hi%elem_of_seqZ. cbn.
    unfold gather_count.
    pose proof (plan_out_rows_bounds height newHeight size i Hh Hn Hs ltac:(lia)).
    nia. }
  intros i d c Hd Hc' Hi.
  rewrite Hdispl in Hd by lia. rewrite Hdispl by lia.
  rewrite list_lookup_fmap, lookup_seqZ_lt in Hc' by lia.
  rewrite Z.add_0_l in Hc'. cbn in Hc'.
  assert (outs !! i = Some (plan_out_rows height newHeight size (Z.of_nat i))) as Ho.
  { unfold outs. rewrite list_lookup_fmap, lookup_seqZ_lt by lia.
    by rewrite Z.add_0_l. }
  rewrite (take_S_r _ _ _ Ho), sumZ_app.
  change (sumZ [plan_out_rows height newHeight size (Z.of_nat i)])
    with (plan_out_rows height newHeight size (Z.of_nat i) + 0).
  unfold gather_count in Hc'. f_equal.
  injection Hd as <-. injection Hc' as <-. lia.
Qed.

Lemma gather_blocks_contiguous_witness :
  ∃ outs : list Z,
    all_out_heights 4 3 3 = Some outs
    ∧ sumZ outs <= 3
    ∧ 3 - sumZ outs <= 3 - 1.
Proof.
  destruct (gather_blocks_contiguous 4 3 3 2 3)
    as (outs & Ho & _ & _ & Hle & Hge & _); [lia|lia|lia|by vm_compute|].
  exists outs. repeat split; assumption.
Defined.
(** * Further properties of the code *)

(** ** The pixel filter: further properties *)

Lemma brightness_pixel_value (b : byte) :
  Cxx.uchar_to_int (brightness_pixel b) = Z.min 255 (Cxx.uchar_to_int b + 50).
Proof.
  unfold brightness_pixel. pose proof (uchar_to_int_range b).
  case_decide; rewrite uchar_to_int_to_uchar; lia.
Qed.

(** X1: on a block whose size matches its dimensions the brightness
    filter stores [min(p + 50, 255)] for every byte [p]: it adds 50 and
    saturates at 255 instead of wrapping, so it never darkens a byte and
    keeps the order of any two bytes. *)
Theorem brightness_saturates (data : list byte) (width height channels : Z) :
  width * height * channels = Z.of_nat (length data) →
  ∃ out,
    apply_filter data width height channels "brightness" = Some out
    ∧ length out = length data
    ∧ (∀ i p, data !! i = Some p →
         ∃ q, out !! i = Some q
              ∧ Cxx.uchar_to_int q = Z.min 255 (Cxx.uchar_to_int p + 50)
              ∧ Cxx.uchar_to_int p <= Cxx.uchar_to_int q)
    ∧ (∀ i j p1 p2 q1 q2,
         data !! i = Some p1 → data !! j = Some p2 →
         out !! i = Some q1 → out !! j = Some q2 →
         Cxx.uchar_to_int p1 <= Cxx.uchar_to_int p2 →
         Cxx.uchar_to_int q1 <= Cxx.uchar_to_int q2).
Proof.
  intros Hn. exists (brightness_pixel <$> data).
  split; [by rewrite apply_filter_map|].
  split; [by rewrite length_fmap|]. split.
  - intros i p Hp. exists (brightness_pixel p).
    rewrite list_lookup_fmap, Hp, brightness_pixel_value.
    pose proof (uchar_to_int_range p). split; [done|]. split; lia.
  - intros i j p1 p2 q1 q2 Hp1 Hp2 Hq1 Hq2 Hle.
    rewrite list_lookup_fmap, Hp1 in Hq1. rewrite list_lookup_fmap, Hp2 in Hq2.
    injection Hq1 as <-. injection Hq2 as <-.
    rewrite !brightness_pixel_value. lia.
Qed.

Lemma brightness_saturates_witness :
  ∃ out, apply_filter [x00; xce; xff] 3 1 1 "brightness" = Some out
         ∧ length out = length [x00; xce; xff].
Proof.
  destruct (brightness_saturates [x00; xce; xff] 3 1 1) as (out & Ho & Hl & _);
    [reflexivity|].
  exists out. split; [exact Ho|exact Hl].
Defined.

Lemma pixel_loop_length (f : byte → option byte) (n : Z) (data out : list byte) :
  pixel_loop f n data = Some out → length out = length data.
Proof.
  unfold pixel_loop, Cxx.for_upto.
  apply (for_range_preserves (λ d, length d = length data)); [|done].
  intros j t t' Hbody Ht.
  destruct (Cxx.vec_get t j) as [b|]; [|done]. cbn in Hbody.
  destruct (f b) as [v|]; [|done]. cbn in Hbody.
  unfold Cxx.vec_set in Hbody. case_decide; [|done].
  injection Hbody as <-. by rewrite length_insert.
Qed.

(** X2: whatever the filter name and the dimensions passed, a call of
    [apply_filter] that has a defined result returns a block of the
    length of its input: the filter never grows or shrinks the buffer. *)
Theorem apply_filter_length (data out : list byte)
    (width height channels : Z) (filterType : string) :
  apply_filter data width height channels filterType = Some out →
  length out = length data.
Proof.
  unfold apply_filter. repeat case_decide; try apply pixel_loop_length.
  by intros [= <-].
Qed.

Lemma apply_filter_length_witness :
  apply_filter [x01; x02; x03] 1 2 1 "invert" = Some [xfe; xfd; x03]
  ∧ length [xfe; xfd; x03] = length [x01; x02; x03].
Proof.
  split; [reflexivity|].
  apply (apply_filter_length [x01; x02; x03] [xfe; xfd; x03] 1 2 1 "invert").
  reflexivity.
Defined.

Section pixel_loop_bounds.
Variable f : byte → option byte.
Variable g : byte → byte.
Hypothesis f_total : ∀ b, f b = Some (g b).



End pixel_loop_bounds.



Lemma contrast_spread_checked : forallb contrast_spread_ok all_bytes = true.
Proof. vm_compute. reflexivity. Qed.

(** X4: the contrast filter fixes mid-grey (128), never moves a byte
    towards it (a byte of at least 128 does not decrease, a byte of at most
    128 does not increase), and clips: the result is 0 exactly for the
    bytes up to 22 and 255 exactly for the bytes from 234 on. *)
Theorem contrast_spreads_and_clips (p : byte) :
  ∃ q,
    apply_filter [p] 1 1 1 "contrast" = Some [q]
    ∧ (Cxx.uchar_to_int p = 128 → Cxx.uchar_to_int q = 128)
    ∧ (128 <= Cxx.uchar_to_int p → Cxx.uchar_to_int p <= Cxx.uchar_to_int q)
    ∧ (Cxx.uchar_to_int p <= 128 → Cxx.uchar_to_int q <= Cxx.uchar_to_int p)
    ∧ (Cxx.uchar_to_int q = 0 ↔ Cxx.uchar_to_int p <= 22)
    ∧ (Cxx.uchar_to_int q = 255 ↔ 234 <= Cxx.uchar_to_int p).
Proof.
  pose proof contrast_spread_checked as H. rewrite forallb_forall in H.
  specialize (H p (proj1 (list_elem_of_In _ _) (elem_of_all_bytes p))).
  unfold contrast_spread_ok in H.
  destruct (contrast_pixel p) as [q|] eqn:Hq; [|done].
  apply bool_decide_eq_true in H. exists q.
  rewrite apply_filter_map by done. unfold filter_pixel. cbn. by rewrite Hq.
Qed.

(** ** The row resampler: further properties *)

Lemma resized_upto_fmap (f : byte → byte) (data out : list byte)
    (width inHeight outHeight channels m : Z) :
  resized_upto data out width inHeight outHeight channels m →
  resized_upto (f <$> data) (f <$> out) width inHeight outHeight channels m.
Proof.
  intros [Hl H]. split; [by rewrite length_fmap|].
  intros y x c Hy Hx Hc Hlt. destruct (H y x c) as (b & Hd & Ho); [done..|].
  exists (f b). by rewrite !list_lookup_fmap, Hd, Ho.
Qed.

Lemma resize_rows_fmap (f : byte → byte) (data : list byte)
    (width inHeight outHeight channels : Z) :
  0 <= width → 0 <= channels → 0 <= outHeight →
  Z.of_nat (length data) = width * inHeight * channels →
  (1 <= outHeight → 1 <= inHeight) →
  Z.of_nat (length data) <= Cxx.INT_MAX →
  width * outHeight <= Cxx.INT_MAX →
  width * outHeight * channels <= Cxx.INT_MAX →
  (outHeight - 1) * inHeight <= Cxx.INT_MAX →
  resize_rows (f <$> data) width inHeight outHeight channels
  = (λ out : list byte, f <$> out) <$> resize_rows data width inHeight outHeight channels.
Proof.
  intros Hw Hc Hout Hlen Hin Hdata Hrow Hsize Hsrc.
  destruct (resize_rows_spec data width inHeight outHeight channels)
    as (out & -> & Hres); [done|done|done|done|lia|done..|].
  destruct (resize_rows_spec (f <$> data) width inHeight outHeight channels)
    as (out' & -> & Hres'); [done|done|by rewrite length_fmap|done|lia|done..|].
  cbn. f_equal.
  apply (resized_upto_unique (f <$> data) out' (f <$> out)
           width inHeight outHeight channels); [done|done|exact Hres'|].
  by apply resized_upto_fmap.
Qed.

(** X5: resampling and filtering commute.  On a block of
    [width * inHeight * channels] bytes (with an input row whenever an
    output row is asked for), as long as the sizes of both blocks and the
    product [(outHeight - 1) * inHeight] fit an [int], filtering the
    resampled block, as lines 137-139 do, gives the same bytes as
    resampling the filtered block, for every filter name. *)
Theorem resize_then_filter_commute (data : list byte)
    (width inHeight outHeight channels : Z) (filterType : string) :
  0 <= width → 0 <= channels → 0 <= outHeight →
  Z.of_nat (length data) = width * inHeight * channels →
  (1 <= outHeight → 1 <= inHeight) →
  Z.of_nat (length data) <= Cxx.INT_MAX →
  width * outHeight <= Cxx.INT_MAX →
  width * outHeight * channels <= Cxx.INT_MAX →
  (outHeight - 1) * inHeight <= Cxx.INT_MAX →
  (resize_rows data width inHeight outHeight channels
     ≫= λ r, apply_filter r width outHeight channels filterType)
  = (apply_filter data width inHeight channels filterType
       ≫= λ d, resize_rows d width inHeight outHeight channels)
  ∧ is_Some (resize_rows data width inHeight outHeight channels
               ≫= λ r, apply_filter r width outHeight channels filterType).
Proof.
  intros Hw Hc Hout Hlen Hin Hdata Hrow Hsize' Hsrc.
  rewrite (apply_filter_map data) by lia. cbn.
  rewrite resize_rows_fmap by done.
  destruct (resize_rows_spec data width inHeight outHeight channels)
    as (out & -> & Hsize & _); [done|done|done|done|lia|done..|].
  cbn. rewrite apply_filter_map by lia. done.
Qed.

Lemma resize_then_filter_commute_witness :
  (resize_rows [x01; x02; x03] 1 3 2 1 ≫= λ r, apply_filter r 1 2 1 "invert")
  = (apply_filter [x01; x02; x03] 1 3 1 "invert" ≫= λ d, resize_rows d 1 3 2 1).
Proof.
  apply (resize_then_filter_commute [x01; x02; x03] 1 3 2 1 "invert");
    [lia|lia|lia|reflexivity|lia|by vm_compute..].
Defined.

(** The rows of the result, with flooring division. *)
Lemma resize_rows_lookup (data : list byte)
    (width inHeight outHeight channels : Z) :
  0 <= width → 0 <= channels → 1 <= inHeight → 0 <= outHeight →
  Z.of_nat (length data) = width * inHeight * channels →
  Z.of_nat (length data) <= Cxx.INT_MAX →
  width * outHeight <= Cxx.INT_MAX →
  width * outHeight * channels <= Cxx.INT_MAX →
  (outHeight - 1) * inHeight <= Cxx.INT_MAX →
  ∃ out,
    resize_rows data width inHeight outHeight channels = Some out
    ∧ ∀ y x c, 0 <= y < outHeight → 0 <= x < width → 0 <= c < channels →
        is_Some (out !! Z.to_nat (flat_index width channels y x c))
        ∧ out !! Z.to_nat (flat_index width channels y x c)
          = data !! Z.to_nat (flat_index width channels ((y * inHeight) / outHeight) x c).
Proof.
  intros Hw Hc Hin Hout Hlen Hdata Hrow Hsize' Hsrc.
  destruct (resize_rows_spec data width inHeight outHeight channels)
    as (out & Hr & Hsize & Hall); [done|done|done|done|lia|done..|].
  exists out. split; [done|]. intros y x c Hy Hx Hc'.
  destruct (src_row_bounds inHeight outHeight y) as [Hq _]; [done..|].
  destruct (Hall y x c) as (b & Hd & Ho); [done..| |].
  { pose proof (flat_index_bounds width channels outHeight y x c Hy Hx Hc').
    unfold flat_index in *. lia. }
  rewrite <- Hq, Hd, Ho. done.
Qed.

(** X6: when the output is at least as high as the input (upscaling or
    same height) and the sizes of both blocks and the product
    [(outHeight - 1) * inHeight] fit an [int], no input row is lost: every
    row of the input block is the source of some row of the result. *)
Theorem resize_rows_upscale_keeps_rows (data : list byte)
    (width inHeight outHeight channels : Z) :
  0 <= width → 0 <= channels → 1 <= inHeight → inHeight <= outHeight →
  Z.of_nat (length data) = width * inHeight * channels →
  Z.of_nat (length data) <= Cxx.INT_MAX →
  width * outHeight <= Cxx.INT_MAX →
  width * outHeight * channels <= Cxx.INT_MAX →
  (outHeight - 1) * inHeight <= Cxx.INT_MAX →
  ∃ out,
    resize_rows data width inHeight outHeight channels = Some out
    ∧ ∀ r, 0 <= r < inHeight →
        ∃ y, 0 <= y < outHeight
             ∧ ∀ x c, 0 <= x < width → 0 <= c < channels →
                 is_Some (out !! Z.to_nat (flat_index width channels y x c))
                 ∧ out !! Z.to_nat (flat_index width channels y x c)
                   = data !! Z.to_nat (flat_index width channels r x c).
Proof.
  intros Hw Hc Hin Hout Hlen Hdata Hrowfit Hsize Hsrcfit.
  destruct (resize_rows_lookup data width inHeight outHeight channels)
    as (out & Hr & Hall); [done|done|done|lia|done..|].
  exists out. split; [done|]. intros r Hrow.
  set (y := (r * outHeight + inHeight - 1) / inHeight).
  assert (y * inHeight <= r * outHeight + inHeight - 1
          ∧ r * outHeight + inHeight - 1 < y * inHeight + inHeight) as [Hy1 Hy2].
  { pose proof (Z.div_mod (r * outHeight + inHeight - 1) inHeight ltac:(lia)).
    pose proof (Z.mod_pos_bound (r * outHeight + inHeight - 1) inHeight ltac:(lia)).
    fold y in H. nia. }
  assert (0 <= y < outHeight) as Hy.
  { split; [apply Z.div_pos; nia|]. apply Z.div_lt_upper_bound; nia. }
  assert ((y * inHeight) / outHeight = r) as Hsrc.
  { symmetry. apply (Z.div_unique _ _ _ (y * inHeight - r * outHeight)); nia. }
  exists y. split; [done|]. intros x c Hx Hc'.
  destruct (Hall y x c) as [Hs He]; [done..|]. by rewrite Hsrc in He.
Qed.

Lemma resize_rows_upscale_keeps_rows_witness :
  ∃ out, resize_rows [x01; x02] 1 2 5 1 = Some out.
Proof.
  destruct (resize_rows_upscale_keeps_rows [x01; x02] 1 2 5 1) as (out & Hr & _);
    [lia|lia|lia|lia|reflexivity|by vm_compute..|].
  by exists out.
Defined.

(** X7: as long as the sizes of both blocks and the product
    [(outHeight - 1) * inHeight] fit an [int], the rows of the result are
    taken from the input in order: output
    row [y] is input row [floor(y * inHeight / outHeight)], which is the
    first input row for the first output row, never decreases with [y],
    and strictly increases with [y] when the output is not higher than the
    input (downscaling uses no input row twice). *)
Theorem resize_rows_keeps_order (data : list byte)
    (width inHeight outHeight channels : Z) :
  0 <= width → 0 <= channels → 1 <= inHeight → 1 <= outHeight →
  Z.of_nat (length data) = width * inHeight * channels →
  Z.of_nat (length data) <= Cxx.INT_MAX →
  width * outHeight <= Cxx.INT_MAX →
  width * outHeight * channels <= Cxx.INT_MAX →
  (outHeight - 1) * inHeight <= Cxx.INT_MAX →
  ∃ out : list byte,
    resize_rows data width inHeight outHeight channels = Some out
    ∧ (∀ y x c, 0 <= y < outHeight → 0 <= x < width → 0 <= c < channels →
         is_Some (out !! Z.to_nat (flat_index width channels y x c))
         ∧ out !! Z.to_nat (flat_index width channels y x c)
           = data !! Z.to_nat (flat_index width channels ((y * inHeight) / outHeight) x c))
    ∧ (0 * inHeight) / outHeight = 0
    ∧ (∀ y1 y2, 0 <= y1 → y1 <= y2 →
         (y1 * inHeight) / outHeight <= (y2 * inHeight) / outHeight)
    ∧ (outHeight <= inHeight → ∀ y1 y2, 0 <= y1 → y1 < y2 →
         (y1 * inHeight) / outHeight < (y2 * inHeight) / outHeight).
Proof.
  intros Hw Hc Hin Hout Hlen Hdata Hrowfit Hsize Hsrcfit.
  destruct (resize_rows_lookup data width inHeight outHeight channels)
    as (out & Hr & Hall); [done|done|done|lia|done..|].
  exists out.
  split; [done|]. split; [exact Hall|]. split; [|split].
  - by rewrite Z.mul_0_l, Z.div_0_l by lia.
  - intros y1 y2 Hy1 Hle. apply Z.div_le_mono; nia.
  - intros Hdown y1 y2 Hy1 Hlt.
    assert ((y1 * inHeight) / outHeight + 1 <= (y2 * inHeight) / outHeight); [|lia].
    rewrite <- Z.div_add by lia. apply Z.div_le_mono; nia.
Qed.

Lemma resize_rows_keeps_order_witness :
  ∃ out, resize_rows [x01; x02; x03; x04] 1 4 2 1 = Some out.
Proof.
  destruct (resize_rows_keeps_order [x01; x02; x03; x04] 1 4 2 1)
    as (out & Hr & _); [lia|lia|lia|lia|reflexivity|by vm_compute..|].
  by exists out.
Defined.

(** X8: asked for at least one row of at least one byte from an empty
    input block, [resize_rows] reads [data[0]] outside the block: the call
    has no defined result, whatever input height it is told. *)
Theorem resize_rows_empty_data_undefined (width inHeight outHeight channels : Z) :
  1 <= width → 1 <= outHeight → 1 <= channels →
  resize_rows [] width inHeight outHeight channels = None.
Proof.
  intros Hw Hout Hc. unfold resize_rows.
  destruct (Cxx.int (width * outHeight)) as [n|]; [|done]. cbn.
  destruct (Cxx.int (n * channels)) as [n'|]; [|done]. cbn.
  destruct (Cxx.vec_make n' x00) as [out|]; [|done]. cbn.
  unfold Cxx.for_upto.
  destruct (Z.to_nat outHeight) as [|k] eqn:Hk; [lia|].
  destruct (Z.to_nat width) as [|k'] eqn:Hk'; [lia|].
  destruct (Z.to_nat channels) as [|k''] eqn:Hk''; [lia|].
  cbn.
  destruct (Cxx.int (0 * inHeight)) as [p|]; [|done]. cbn.
  destruct (Cxx.div p outHeight) as [q|]; [|done]. cbn.
  destruct (Cxx.int q) as [srcY|]; [|done]. cbn.
  destruct (int_index width channels 0 0 0) as [dst|]; [|done]. cbn.
  destruct (int_index width channels srcY 0 0) as [src|]; [|done]. cbn.
  assert (Cxx.vec_get (A := byte) [] src = None) as ->; [|done].
  unfold Cxx.vec_get. by case_decide.
Qed.

Lemma resize_rows_empty_data_undefined_witness :
  resize_rows [] 2 0 3 1 = None.
Proof. apply (resize_rows_empty_data_undefined 2 0 3 1); lia. Defined.

(** X9: nothing checks the sign of the requested height.  When
    [newHeight] is so negative that line 136 gives a negative
    [localOutHeight], the size of the output vector of [resize_rows] is
    negative and lines 136-139 have no defined result. *)
Theorem process_block_negative_height (localIn : list byte)
    (width height channels newHeight localInHeight : Z) (filterType : string) :
  1 <= width → 1 <= channels → 1 <= height → 1 <= localInHeight →
  newHeight * localInHeight <= - height →
  process_block localIn width height channels newHeight localInHeight filterType
  = None.
Proof.
  intros Hw Hc Hh Hl Hneg. unfold process_block.
  destruct (local_out_height newHeight height localInHeight) as [q|] eqn:Hq;
    [|done].
  apply local_out_height_Some in Hq as (-> & _ & _). cbn.
  assert ((newHeight * localInHeight) ÷ height <= -1) as Hq.
  { rewrite <- (Z.opp_involutive (newHeight * localInHeight)), Z.quot_opp_l by lia.
    assert (1 <= (- (newHeight * localInHeight)) ÷ height); [|lia].
    rewrite Z.quot_div_nonneg by lia. apply Z.div_le_lower_bound; lia. }
  set (q := (newHeight * localInHeight) ÷ height) in *.
  unfold resize_rows.
  destruct (Cxx.int (width * q)) as [n|] eqn:Hn; [|done].
  apply int_Some in Hn as [-> _]. cbn.
  destruct (Cxx.int (width * q * channels)) as [n|] eqn:Hn; [|done].
  apply int_Some in Hn as [-> _]. cbn.
  unfold Cxx.vec_make. rewrite decide_False by nia. done.
Qed.

Lemma process_block_negative_height_witness :
  process_block [x01; x02] 1 2 1 (-3) 2 "invert" = None.
Proof. apply (process_block_negative_height [x01; x02] 1 2 1 (-3) 2 "invert"); lia. Defined.

(** ** The partition: further properties *)

(** X10: the split of the rows is balanced and front-loaded: every rank
    gets [floor(height / size)] rows or one more, two ranks never differ
    by more than one row, a rank never has more rows than a rank before
    it, and all ranks get the same number when [size] divides [height]. *)
Theorem input_rows_balanced (height size i j : Z) (ri rj : row_range) :
  1 <= size → 0 <= height → 0 <= i → 0 <= j →
  local_rows height size i = Some ri →
  local_rows height size j = Some rj →
  height / size <= localInHeight ri <= height / size + 1
  ∧ -1 <= localInHeight ri - localInHeight rj <= 1
  ∧ (i <= j → localInHeight rj <= localInHeight ri)
  ∧ (height `mod` size = 0 → localInHeight ri = height / size).
Proof.
  intros Hs Hh Hi0 Hj0 Hi Hj. rewrite local_rows_plan in Hi, Hj by done.
  injection Hi as <-. injection Hj as <-. cbn. unfold plan_in_rows.
  pose proof (Z.mod_pos_bound height size ltac:(lia)).
  repeat case_decide; repeat split; intros; lia.
Qed.

Lemma input_rows_balanced_witness :
  -1 <= localInHeight (RowRange 3 0) - localInHeight (RowRange 2 8) <= 1.
Proof.
  apply (input_rows_balanced 10 4 0 3 (RowRange 3 0) (RowRange 2 8));
    [lia|lia|lia|lia|reflexivity|reflexivity].
Defined.

Section scatter.
Variables (height size width channels : Z).
Hypothesis height_nonneg : 0 <= height.
Hypothesis size_pos : 1 <= size.

Lemma scatter_step_inv (i : Z) (st : list Z * list Z * Z) :
  0 <= i < size →
  scatter_inv height size width channels i st →
  ∃ st',
    scatter_step height size width channels (Z.rem height size) i st = Some st'
    ∧ scatter_inv height size width channels (i + 1) st'.
Proof.
  destruct st as [[cs ds] off]. intros Hi (Hcs & Hds & Hoff & Hfilled).
  unfold scatter_step. rewrite div_nonneg by lia. cbn.
  rewrite Z.rem_mod_nonneg by lia.
  fold (plan_in_rows height size i).
  fold (scatter_count height size width channels i).
  unfold Cxx.vec_set. rewrite decide_True by lia. cbn.
  rewrite decide_True by lia. cbn.
  unfold Cxx.vec_get. rewrite decide_True by lia.
  rewrite list_lookup_insert_eq by lia. cbn.
  eexists. split; [reflexivity|].
  split; [by rewrite length_insert|]. split; [by rewrite length_insert|].
  split.
  - rewrite plan_in_start_succ, Hoff. unfold scatter_count. lia.
  - intros j Hj. destruct (decide (Z.of_nat j = i)) as [<-|Hne].
    + rewrite Nat2Z.id, !list_lookup_insert_eq by lia. by rewrite Hoff.
    + rewrite !list_lookup_insert_ne by lia. apply Hfilled. lia.
Qed.

Lemma scatter_tables_spec :
  scatter_tables height size width channels
  = Some (scatter_count height size width channels <$> seqZ 0 size,
          (λ i, plan_in_start height size i * width * channels) <$> seqZ 0 size).
Proof.
  unfold scatter_tables, Cxx.rem, Cxx.vec_make.
  rewrite (decide_False (P := size = 0)) by lia. cbn.
  rewrite !(decide_True (P := 0 <= size)) by lia. cbn.
  destruct (for_upto_inv (scatter_inv height size width channels)
              (scatter_step height size width channels (Z.rem height size))
              size
              (replicate (Z.to_nat size) 0, replicate (Z.to_nat size) 0, 0))
    as ([[cs ds] off] & -> & Hcs & Hds & _ & Hfilled).
  - lia.
  - split; [by rewrite length_replicate|]. split; [by rewrite length_replicate|].
    split; [by rewrite plan_in_start_0|]. intros j Hj. lia.
  - intros i st. apply scatter_step_inv.
  - cbn. do 2 f_equal; apply list_eq; intros j; rewrite list_lookup_fmap.
    + destruct (decide (Z.of_nat j < size)) as [Hj|Hj].
      * rewrite lookup_seqZ_lt by done. rewrite Z.add_0_l. by apply Hfilled.
      * rewrite lookup_seqZ_ge by lia. apply lookup_ge_None_2. lia.
    + destruct (decide (Z.of_nat j < size)) as [Hj|Hj].
      * rewrite lookup_seqZ_lt by done. rewrite Z.add_0_l. by apply Hfilled.
      * rewrite lookup_seqZ_ge by lia. apply lookup_ge_None_2. lia.
Qed.

End scatter.

Lemma sumZ_plan_in_rows (height size : Z) :
  1 <= size → 0 <= height →
  sumZ (plan_in_rows height size <$> seqZ 0 size) = height.
Proof.
  intros Hs Hh.
  pose proof (sumZ_running_total (plan_in_rows height size)
                (plan_in_start height size) (Z.to_nat size)
                (plan_in_start_0 height size Hs Hh)
                (λ i _, plan_in_start_succ height size i)) as Htot.
  rewrite Z2Nat.id in Htot by lia. by rewrite plan_in_start_end in Htot.
Qed.

(** X11: the tables that rank 0 builds for the scatter agree with what
    every rank computes for itself in lines 115-120: the send count of a
    rank is its [localInBytes], its displacement is the offset of its
    [startRow], and the counts add up to the [width * height * channels]
    bytes of the image. *)
Theorem scatter_tables_match_local_rows (height size width channels : Z) :
  0 <= height → 1 <= size →
  ∃ sendCounts displs : list Z,
    scatter_tables height size width channels = Some (sendCounts, displs)
    ∧ length sendCounts = Z.to_nat size
    ∧ length displs = Z.to_nat size
    ∧ (∀ rank, 0 <= rank < size →
         ∃ r, local_rows height size rank = Some r
              ∧ sendCounts !! Z.to_nat rank = Some (localInHeight r * width * channels)
              ∧ displs !! Z.to_nat rank = Some (startRow r * width * channels))
    ∧ sumZ sendCounts = width * height * channels.
Proof.
  intros Hh Hs. eexists _, _. split; [by apply scatter_tables_spec|].
  split; [by rewrite length_fmap, length_seqZ|].
  split; [by rewrite length_fmap, length_seqZ|]. split.
  - intros rank Hr. eexists. split; [by apply local_rows_plan|]. cbn.
    rewrite !list_lookup_fmap, lookup_seqZ_lt by lia. cbn.
    by replace (0 + Z.of_nat (Z.to_nat rank)) with rank by lia.
  - unfold scatter_count.
    rewrite (list_fmap_compose (plan_in_rows height size)
               (λ r, r * width * channels)).
    transitivity (sumZ ((λ r, r * (width * channels))
                          <$> (plan_in_rows height size <$> seqZ 0 size))).
    { f_equal. apply list_fmap_ext. intros. lia. }
    rewrite sumZ_scale, sumZ_plan_in_rows by done. lia.
Qed.

Lemma scatter_tables_match_local_rows_witness :
  ∃ sendCounts displs : list Z,
    scatter_tables 5 2 3 1 = Some (sendCounts, displs)
    ∧ sumZ sendCounts = 3 * 5 * 1.
Proof.
  destruct (scatter_tables_match_local_rows 5 2 3 1)
    as (sc & ds & Ht & _ & _ & _ & Hsum); [lia|lia|].
  exists sc, ds. split; [exact Ht|exact Hsum].
Defined.

(** X12: when the requested height is a multiple [k * height] of the
    image height (in particular when the height is kept) and the product
    of line 136 fits an [int] on rank 0, which has the most rows, line 136
    loses no row: every rank outputs exactly [k] times its input rows and
    the output rows of all ranks add up to the requested height. *)
Theorem integer_upscale_no_drift (height k size : Z) :
  1 <= height → 0 <= k → 1 <= size →
  k * height * plan_in_rows height size 0 <= Cxx.INT_MAX →
  ∃ (rows : list row_range) (outs : list Z),
    all_local_rows height size = Some rows
    ∧ all_out_heights height (k * height) size = Some outs
    ∧ outs = (λ r, k * localInHeight r) <$> rows
    ∧ sumZ outs = k * height.
Proof.
  intros Hh Hk Hs Hfit. eexists _, _.
  split; [apply all_local_rows_plan; lia|].
  split; [apply all_out_heights_plan; [lia|nia|lia|done]|].
  assert (∀ i, plan_out_rows height (k * height) size i
               = plan_in_rows height size i * k) as Hout.
  { intros i. unfold plan_out_rows.
    replace (k * height * plan_in_rows height size i)
      with (plan_in_rows height size i * k * height) by lia.
    apply Z.div_mul. lia. }
  split.
  - rewrite <- list_fmap_compose. apply list_fmap_ext. intros _ i _. cbn.
    rewrite Hout. lia.
  - transitivity (sumZ ((λ r, r * k) <$> (plan_in_rows height size <$> seqZ 0 size))).
    { rewrite <- list_fmap_compose. f_equal. apply list_fmap_ext. intros _ i _.
      apply Hout. }
    rewrite sumZ_scale, sumZ_plan_in_rows by lia. lia.
Qed.

Lemma integer_upscale_no_drift_witness :
  ∃ (rows : list row_range) (outs : list Z),
    all_out_heights 5 (2 * 5) 3 = Some outs ∧ sumZ outs = 2 * 5.
Proof.
  destruct (integer_upscale_no_drift 5 2 3) as (rows & outs & _ & Ho & _ & Hsum);
    [lia|lia|lia|by vm_compute|].
  exists rows, outs. split; [exact Ho|exact Hsum].
Defined.

(** X13: a requested height that is small against the share of one rank
    loses everything: for an image height that is an [int], when
    [newHeight * (floor(height / size) + 1)] is below [height], line 136
    gives zero output rows to every rank, however many rows were asked
    for. *)
Theorem small_height_all_rows_lost (height newHeight size : Z) :
  1 <= height → 0 <= newHeight → 1 <= size →
  height <= Cxx.INT_MAX →
  newHeight * (height / size + 1) < height →
  ∃ outs : list Z,
    all_out_heights height newHeight size = Some outs
    ∧ length outs = Z.to_nat size
    ∧ Forall (λ o, o = 0) outs
    ∧ sumZ outs = 0.
Proof.
  intros Hh Hn Hs Hint Hsmall.
  assert (newHeight * plan_in_rows height size 0 <= Cxx.INT_MAX) as Hfit.
  { assert (plan_in_rows height size 0 <= height / size + 1)
      by (unfold plan_in_rows; case_decide; lia).
    nia. }
  assert (∀ i, plan_out_rows height newHeight size i = 0) as Hzero.
  { intros i. unfold plan_out_rows. apply Z.div_small.
    pose proof (plan_in_rows_nonneg height size i ltac:(lia) ltac:(lia)).
    assert (plan_in_rows height size i <= height / size + 1)
      by (unfold plan_in_rows; case_decide; lia).
    nia. }
  eexists. split; [by apply all_out_heights_plan|].
  split; [by rewrite length_fmap, length_seqZ|].
  assert (Forall (λ o, o = 0) (plan_out_rows height newHeight size <$> seqZ 0 size))
    as Hall by (apply Forall_fmap, Forall_forall; intros i _; apply Hzero).
  split; [done|].
  induction Hall as [|o l -> _ IH]; [done|]. exact IH.
Qed.

Lemma small_height_all_rows_lost_witness :
  ∃ outs : list Z, all_out_heights 100 4 10 = Some outs ∧ sumZ outs = 0.
Proof.
  destruct (small_height_all_rows_lost 100 4 10) as (outs & Ho & _ & _ & Hsum);
    [lia|lia|lia|by vm_compute|reflexivity|].
  exists outs. split; [exact Ho|exact Hsum].
Defined.

(** ** Scatter, process, gather *)

Lemma vec_resize_length {A} (v v' : list A) (n : Z) (zero : A) :
  vec_resize v n zero = Some v' → length v' = Z.to_nat n.
Proof.
  unfold vec_resize. case_decide; [|done]. intros [= <-].
  rewrite length_app, length_take, length_replicate. lia.
Qed.

Lemma length_concat_take_le {A} (l : list (list A)) (k : nat) :
  (length (concat (take k l)) <= length (concat l))%nat.
Proof.
  rewrite <- (take_drop k l) at 2. rewrite concat_app, length_app. lia.
Qed.

Lemma concat_take_S {A} (l : list (list A)) (k : nat) (x : list A) :
  l !! k = Some x → concat (take (S k) l) = concat (take k l) ++ x.
Proof.
  intros Hx. rewrite (take_S_r _ _ _ Hx), concat_app. cbn. by rewrite app_nil_r.
Qed.

Section gatherv.
Variables (sent : list (list byte * Z)) (recvcounts displs : list Z).
Variable recvbuf : list byte.

(** Every rank sends its whole block, the root expects that many bytes
    and stores them right after the blocks of the ranks before it. *)
Hypothesis contiguous : ∀ (i : nat) b c,
  sent !! i = Some (b, c) →
  c = Z.of_nat (length b)
  ∧ recvcounts !! i = Some c
  ∧ displs !! i = Some (Z.of_nat (length (concat (take i sent.*1)))).

Lemma gatherv_step (i : nat) (buf : list byte) :
  (i < length sent)%nat →
  (length (concat (take (S i) sent.*1)) <= length recvbuf)%nat →
  buf = concat (take i sent.*1) ++ drop (length (concat (take i sent.*1))) recvbuf →
  (Cxx.vec_get sent (Z.of_nat i) ≫= λ s,
     Cxx.vec_get recvcounts (Z.of_nat i) ≫= λ cnt,
       Cxx.vec_get displs (Z.of_nat i) ≫= λ d,
         if decide (0 <= s.2 <= Z.of_nat (length s.1) ∧ s.2 <= cnt)
         then MPI.store_block buf d (take (Z.to_nat s.2) s.1)
         else None)
  = Some (concat (take (S i) sent.*1)
          ++ drop (length (concat (take (S i) sent.*1))) recvbuf).
Proof.
  intros Hi Hfit ->.
  destruct (lookup_lt_is_Some_2 sent i Hi) as [[b c] Hs].
  destruct (contiguous i b c Hs) as (-> & Hc & Hd).
  assert (sent.*1 !! i = Some b) as Hb by (by rewrite list_lookup_fmap, Hs).
  rewrite (concat_take_S _ _ _ Hb) in *. rewrite length_app in Hfit.
  rewrite !vec_get_lookup, Hs, Hc, Hd. cbn.
  rewrite decide_True by lia. rewrite Nat2Z.id, firstn_all.
  unfold MPI.store_block.
  set (pre := concat (take i sent.*1)) in *.
  rewrite decide_True.
  2:{ rewrite length_app, length_drop. lia. }
  rewrite Nat2Z.id. f_equal.
  rewrite take_app_length, <- app_assoc. do 2 f_equal.
  rewrite drop_app_ge by lia. rewrite drop_drop, length_app. f_equal. lia.
Qed.

(** The gathered buffer: the blocks one after the other, then what the
    receive buffer held beyond them. *)
Lemma gatherv_contiguous :
  (length (concat sent.*1) <= length recvbuf)%nat →
  MPI.gatherv sent recvbuf recvcounts displs
  = Some (concat sent.*1 ++ drop (length (concat sent.*1)) recvbuf).
Proof.
  intros Hfit. unfold MPI.gatherv.
  edestruct (for_upto_inv
    (λ i buf, buf = concat (take (Z.to_nat i) sent.*1)
                    ++ drop (length (concat (take (Z.to_nat i) sent.*1))) recvbuf))
    as (buf & Hr & Hbuf); [| | |rewrite Hr, Hbuf].
  - lia.
  - change (Z.to_nat 0) with O. by rewrite take_0, drop_0.
  - intros i buf Hi Hbuf.
    assert (∃ k : nat, i = Z.of_nat k ∧ (k < length sent)%nat) as (k & -> & Hk).
    { exists (Z.to_nat i). lia. }
    rewrite Nat2Z.id in Hbuf.
    replace (Z.to_nat (Z.of_nat k + 1)) with (S k) by lia.
    eexists. split; [|reflexivity].
    apply gatherv_step; [done| |done].
    etransitivity; [apply length_concat_take_le|done].
  - rewrite Nat2Z.id, take_ge; [done|]. by rewrite length_fmap.
Qed.

(** When the blocks do not fit the receive buffer the gather stores
    outside it. *)
Lemma gatherv_overflow :
  (length recvbuf < length (concat sent.*1))%nat →
  MPI.gatherv sent recvbuf recvcounts displs = None.
Proof.
  intros Hover.
  destruct (running_total_cover
              (λ i, Z.of_nat (length (concat (take (Z.to_nat i) sent.*1))))
              (Z.of_nat (length recvbuf)) (length sent)) as (i & Hi & Hin).
  { cbn beta. change (Z.to_nat 0) with O. rewrite Nat2Z.id.
    rewrite (take_ge sent.*1 (length sent)) by (rewrite length_fmap; lia).
    rewrite take_0. cbn. lia. }
  assert (∃ k : nat, i = Z.of_nat k ∧ (k < length sent)%nat) as (k & -> & Hk).
  { exists (Z.to_nat i). lia. }
  replace (Z.to_nat (Z.of_nat k + 1)) with (S k) in Hin by lia.
  rewrite Nat2Z.id in Hin.
  unfold MPI.gatherv, Cxx.for_upto. rewrite Nat2Z.id.
  replace (length sent) with (k + S (length sent - k - 1))%nat by lia.
  rewrite for_range_add.
  edestruct (for_range_inv
    (λ i buf, buf = concat (take (Z.to_nat i) sent.*1)
                    ++ drop (length (concat (take (Z.to_nat i) sent.*1))) recvbuf))
    as (buf & Hr & Hbuf); [| |rewrite Hr].
  - change (Z.to_nat 0) with O. by rewrite take_0, drop_0.
  - intros j buf Hj Hbuf.
    assert (∃ m : nat, j = Z.of_nat m ∧ (m < k)%nat) as (m & -> & Hm).
    { exists (Z.to_nat j). lia. }
    rewrite Nat2Z.id in Hbuf.
    replace (Z.to_nat (Z.of_nat m + 1)) with (S m) by lia.
    eexists. split; [|reflexivity].
    apply gatherv_step; [lia| |done].
    assert (length (concat (take (S m) sent.*1))
            <= length (concat (take k sent.*1)))%nat; [|lia].
    replace (take (S m) sent.*1) with (take (S m) (take k sent.*1))
      by (rewrite take_take; f_equal; lia).
    apply length_concat_take_le.
  - cbn. rewrite Z.add_0_l, Nat2Z.id in Hbuf. subst buf.
    destruct (lookup_lt_is_Some_2 sent k Hk) as [[b c] Hs].
    destruct (contiguous k b c Hs) as (-> & Hc & Hd).
    assert (sent.*1 !! k = Some b) as Hb by (by rewrite list_lookup_fmap, Hs).
    rewrite (concat_take_S _ _ _ Hb), length_app in Hin.
    rewrite Z.add_0_l, !vec_get_lookup, Hs, Hc, Hd. cbn.
    rewrite decide_True by lia. rewrite Nat2Z.id, firstn_all.
    unfold MPI.store_block. rewrite decide_False; [done|].
    rewrite length_app, length_drop. lia.
Qed.

End gatherv.

Lemma image_rows_length (fullImage : list byte) (width channels start rows : Z) :
  0 <= start * width * channels → 0 <= rows * width * channels →
  (start + rows) * width * channels <= Z.of_nat (length fullImage) →
  Z.of_nat (length (image_rows fullImage width channels start rows))
  = rows * width * channels.
Proof.
  intros Hs Hr Hfit. unfold image_rows. rewrite length_take, length_drop. lia.
Qed.

(** The rows of the ranks below [n], one after the other, are the image
    up to the first row of rank [n]. *)
Lemma concat_image_rows (fullImage : list byte) (height size width channels : Z)
    (n : nat) :
  1 <= size → 0 <= height → 0 <= width → 0 <= channels →
  concat ((λ i, image_rows fullImage width channels
                  (plan_in_start height size i) (plan_in_rows height size i))
          <$> seqZ 0 (Z.of_nat n))
  = take (Z.to_nat (plan_in_start height size (Z.of_nat n) * width * channels))
         fullImage.
Proof.
  intros Hs Hh Hw Hc. induction n as [|n IH].
  - change (Z.of_nat 0) with 0. rewrite plan_in_start_0 by done. done.
  - rewrite seqZ_S, fmap_app, concat_app, IH. cbn. rewrite app_nil_r.
    unfold image_rows. rewrite Z.add_0_l, take_take_drop. f_equal.
    replace (Z.of_nat (S n)) with (Z.of_nat n + 1) by lia.
    rewrite plan_in_start_succ.
    pose proof (plan_in_rows_nonneg height size (Z.of_nat n) Hs Hh).
    pose proof (plan_in_start_mono height size 0 (Z.of_nat n) Hs Hh ltac:(lia)) as H0.
    rewrite plan_in_start_0 in H0 by done.
    rewrite <- Z2Nat.inj_add by nia. f_equal. lia.
Qed.

Section ranks.
Variables (fullImage : list byte) (width height channels size : Z).
Hypothesis width_nonneg : 0 <= width.
Hypothesis channels_nonneg : 0 <= channels.
Hypothesis height_pos : 1 <= height.
Hypothesis size_pos : 1 <= size.
Hypothesis image_size : Z.of_nat (length fullImage) = width * height * channels.

Lemma rank_rows_fit (rank : Z) :
  0 <= rank < size →
  0 <= plan_in_start height size rank * width * channels
  ∧ 0 <= plan_in_rows height size rank * width * channels
  ∧ (plan_in_start height size rank + plan_in_rows height size rank)
      * width * channels <= Z.of_nat (length fullImage).
Proof.
  intros Hr.
  pose proof (plan_in_rows_nonneg height size rank ltac:(lia) ltac:(lia)).
  pose proof (plan_in_start_mono height size 0 rank ltac:(lia) ltac:(lia) ltac:(lia)) as H0.
  rewrite plan_in_start_0 in H0 by lia.
  pose proof (plan_in_start_mono height size (rank + 1) size
                ltac:(lia) ltac:(lia) ltac:(lia)) as H1.
  rewrite plan_in_start_succ, plan_in_start_end in H1 by lia.
  rewrite image_size. split; [nia|]. split; [nia|].
  assert (0 <= width * channels) by nia.
  replace ((plan_in_start height size rank + plan_in_rows height size rank)
             * width * channels)
    with ((plan_in_start height size rank + plan_in_rows height size rank)
            * (width * channels)) by lia.
  replace (width * height * channels) with (height * (width * channels)) by lia.
  by apply Z.mul_le_mono_nonneg_r.
Qed.

(** What the scatter delivers to [rank]: the rows of lines 115-118. *)
Lemma scatterv_rows (rank : Z) :
  0 <= rank < size →
  MPI.scatterv fullImage
    (scatter_count height size width channels <$> seqZ 0 size)
    ((λ i, plan_in_start height size i * width * channels) <$> seqZ 0 size)
    rank
    (replicate (Z.to_nat (plan_in_rows height size rank * width * channels)) x00)
    (plan_in_rows height size rank * width * channels)
  = Some (image_rows fullImage width channels
            (plan_in_start height size rank) (plan_in_rows height size rank)).
Proof.
  intros Hr. destruct (rank_rows_fit rank Hr) as (Hs & Hn & Hfit).
  unfold MPI.scatterv, Cxx.vec_get. rewrite !decide_True by lia.
  rewrite !list_lookup_fmap, lookup_seqZ_lt by lia. cbn.
  replace (0 + Z.of_nat (Z.to_nat rank)) with rank by lia.
  unfold scatter_count. rewrite decide_True.
  2:{ rewrite length_replicate. lia. }
  rewrite (drop_ge (replicate _ _)) by (rewrite length_replicate; lia).
  by rewrite app_nil_r.
Qed.

Variables (newHeight : Z) (filterType : string).
Hypothesis newHeight_nonneg : 0 <= newHeight.
Hypothesis image_fits : Z.of_nat (length fullImage) <= Cxx.INT_MAX.
Hypothesis product_fits : newHeight * plan_in_rows height size 0 <= Cxx.INT_MAX.
Hypothesis row_fits : width * newHeight <= Cxx.INT_MAX.
Hypothesis out_fits : width * newHeight * channels <= Cxx.INT_MAX.

(** Lines 115-139 and 153 for one rank, when no product overflows: it has
    a defined result, it sends its whole block, and the block is what
    lines 136-139 make of the rows of the rank, with the filter name that
    the rank holds. *)
Lemma rank_main_spec (rank : Z) :
  0 <= rank < size →
  ∃ block,
    rank_main fullImage width height channels newHeight size filterType
      (scatter_count height size width channels <$> seqZ 0 size)
      ((λ i, plan_in_start height size i * width * channels) <$> seqZ 0 size)
      rank
    = Some (block, plan_out_rows height newHeight size rank * width * channels)
    ∧ Z.of_nat (length block)
      = plan_out_rows height newHeight size rank * width * channels
    ∧ process_block
        (image_rows fullImage width channels
           (plan_in_start height size rank) (plan_in_rows height size rank))
        width height channels newHeight (plan_in_rows height size rank)
        (rank_filter filterType rank)
      = Some block.
Proof.
  intros Hr. destruct (rank_rows_fit rank Hr) as (Hs & Hn & Hfit).
  pose proof (plan_in_rows_nonneg height size rank ltac:(lia) ltac:(lia)) as Hin.
  pose proof (plan_in_rows_le_height height size rank ltac:(lia) ltac:(lia)
                ltac:(lia)) as Hle.
  pose proof (plan_in_rows_le_first height size rank ltac:(lia) ltac:(lia))
    as Hfirst.
  pose proof (plan_out_rows_bounds height newHeight size rank ltac:(lia)
                ltac:(lia) ltac:(lia) ltac:(lia)) as Hout.
  assert (newHeight * plan_in_rows height size rank <= Cxx.INT_MAX) as Hprod by nia.
  set (rows := image_rows fullImage width channels
                 (plan_in_start height size rank) (plan_in_rows height size rank)).
  assert (Z.of_nat (length rows)
          = width * plan_in_rows height size rank * channels) as Hlen.
  { unfold rows. rewrite image_rows_length by done. lia. }
  destruct (process_block_defined rows width height channels newHeight
              (plan_in_rows height size rank) (rank_filter filterType rank))
    as (out & Hproc & Hres & Hsize); [done|done|done|done|lia|done| |done..|].
  { rewrite Hlen. lia. }
  fold (plan_out_rows height newHeight size rank) in Hres, Hsize.
  unfold rank_main. rewrite local_rows_plan by lia. cbn.
  unfold Cxx.vec_make. rewrite decide_True by done. cbn.
  rewrite scatterv_rows by done. cbn. fold rows.
  rewrite local_out_height_fits by lia. cbn.
  fold (plan_out_rows height newHeight size rank). rewrite Hres. cbn.
  rewrite apply_filter_map by lia. cbn.
  assert (0 <= plan_out_rows height newHeight size rank * width <= Cxx.INT_MAX)
    by nia.
  assert (0 <= plan_out_rows height newHeight size rank * width * channels
          <= Cxx.INT_MAX).
  { split; [nia|].
    assert (plan_out_rows height newHeight size rank * width * channels
            <= width * newHeight * channels); [|lia].
    replace (width * newHeight) with (newHeight * width) by lia.
    apply Z.mul_le_mono_nonneg_r; [done|nia]. }
  rewrite int_fits by (unfold Cxx.INT_MIN; lia). cbn.
  rewrite int_fits by (unfold Cxx.INT_MIN; lia). cbn.
  eexists. split; [reflexivity|]. split; [|done].
  rewrite length_fmap. lia.
Qed.

(** The blocks of all ranks, as the gather receives them. *)
Lemma sent_blocks :
  ∃ sent : list (list byte * Z),
    mapM (rank_main fullImage width height channels newHeight size filterType
            (scatter_count height size width channels <$> seqZ 0 size)
            ((λ i, plan_in_start height size i * width * channels) <$> seqZ 0 size))
         (seqZ 0 size) = Some sent
    ∧ length sent = Z.to_nat size
    ∧ ∀ (i : nat) b c, sent !! i = Some (b, c) →
        Z.of_nat i < size
        ∧ c = gather_count height newHeight size width channels (Z.of_nat i)
        ∧ Z.of_nat (length b) = c
        ∧ process_block
            (image_rows fullImage width channels
               (plan_in_start height size (Z.of_nat i))
               (plan_in_rows height size (Z.of_nat i)))
            width height channels newHeight
            (plan_in_rows height size (Z.of_nat i))
            (rank_filter filterType (Z.of_nat i))
          = Some b.
Proof.
  destruct (mapM_is_Some_2
    (rank_main fullImage width height channels newHeight size filterType
       (scatter_count height size width channels <$> seqZ 0 size)
       ((λ i, plan_in_start height size i * width * channels) <$> seqZ 0 size))
    (seqZ 0 size)) as [sent Hsent].
  { apply Forall_forall. intros rank Hr%elem_of_seqZ.
    destruct (rank_main_spec rank) as (block & Hb & _); [lia|].
    unfold compose. by rewrite Hb. }
  exists sent. split; [done|].
  pose proof (length_mapM _ _ _ Hsent) as Hlen. rewrite length_seqZ in Hlen.
  split; [done|]. intros i b c Hi.
  apply mapM_Some_1 in Hsent.
  destruct (Forall2_lookup_r _ _ _ _ _ Hsent Hi) as (rank & Hrank & Hmain).
  apply lookup_seqZ in Hrank as [-> Hlt]. rewrite Z.add_0_l in Hmain.
  destruct (rank_main_spec (Z.of_nat i)) as (block & Hmain' & Hblen & Hproc); [lia|].
  rewrite Hmain' in Hmain. injection Hmain as <- <-.
  unfold gather_count. done.
Qed.

End ranks.

(** Whatever a rank delivers, it is the number of bytes that the gather
    tables expect of it, and its block has that many bytes. *)
Lemma rank_main_sound (fullImage : list byte)
    (width height channels newHeight size : Z) (filterType : string)
    (sendCounts displs : list Z) (rank : Z) (b : list byte) (c : Z) :
  0 <= width → 0 <= channels → 1 <= height → 1 <= size → 0 <= newHeight →
  rank_main fullImage width height channels newHeight size filterType
    sendCounts displs rank = Some (b, c) →
  c = gather_count height newHeight size width channels rank
  ∧ Z.of_nat (length b) = c.
Proof.
  intros Hw Hc Hh Hs Hn. unfold rank_main.
  rewrite local_rows_plan by lia. cbn. intros Hmain.
  pose proof (plan_in_rows_nonneg height size rank ltac:(lia) ltac:(lia)) as Hin.
  destruct (Cxx.vec_make _ _) as [localIn|]; [|done]. cbn in Hmain.
  destruct (MPI.scatterv _ _ _ _ _ _) as [localIn'|]; [|done]. cbn in Hmain.
  destruct (local_out_height _ _ _) as [v|] eqn:Hv; [|done]. cbn in Hmain.
  apply local_out_height_Some in Hv as (-> & _ & _).
  rewrite Z.quot_div_nonneg in Hmain by nia.
  fold (plan_out_rows height newHeight size rank) in Hmain.
  destruct (resize_rows _ _ _ _ _) as [out|] eqn:Hout; [|done]. cbn in Hmain.
  apply resize_rows_length in Hout as [Hlen _].
  destruct (apply_filter _ _ _ _ _) as [out'|] eqn:Hf; [|done]. cbn in Hmain.
  assert (length out' = length out) as Hlen'.
  { revert Hf. unfold apply_filter.
    repeat case_decide; try apply pixel_loop_length. by intros [= <-]. }
  destruct (Cxx.int _) as [n|] eqn:Hn1; [|done].
  apply int_Some in Hn1 as [-> _]. cbn in Hmain.
  destruct (Cxx.int _) as [n|] eqn:Hn2; [|done].
  apply int_Some in Hn2 as [-> _]. cbn in Hmain.
  injection Hmain as <- <-. unfold gather_count. split; [done|].
  rewrite Hlen', Hlen. lia.
Qed.

Section pipeline.
Variables (height newHeight size width channels : Z).
Hypothesis size_pos : 1 <= size.

Variable sent : list (list byte * Z).
Hypothesis sent_length : length sent = Z.to_nat size.
Hypothesis sent_counts : ∀ (i : nat) b c, sent !! i = Some (b, c) →
  c = gather_count height newHeight size width channels (Z.of_nat i)
  ∧ Z.of_nat (length b) = c.

(** The displacement of a rank is the length of the blocks before it. *)
Lemma sent_prefix_length (i : nat) :
  (i <= length sent)%nat →
  Z.of_nat (length (concat (take i sent.*1)))
  = gather_prefix height newHeight size width channels (Z.of_nat i).
Proof.
  induction i as [|i IH]; intros Hi; [done|].
  destruct (lookup_lt_is_Some_2 sent i ltac:(lia)) as [[b c] Hs].
  destruct (sent_counts i b c Hs) as (-> & Hb).
  rewrite (concat_take_S _ i b) by (by rewrite list_lookup_fmap, Hs).
  rewrite length_app, Nat2Z.inj_add, IH, Hb by lia.
  unfold gather_prefix. replace (Z.of_nat (S i)) with (Z.of_nat i + 1) by lia.
  by rewrite sumZ_seqZ_snoc by lia.
Qed.

Lemma sent_total_length :
  Z.of_nat (length (concat sent.*1))
  = sumZ (plan_out_rows height newHeight size <$> seqZ 0 size) * width * channels.
Proof.
  rewrite <- (take_ge sent.*1 (length sent)) by (by rewrite length_fmap).
  rewrite sent_prefix_length, sent_length, Z2Nat.id by lia.
  rewrite gather_prefix_scaled. lia.
Qed.

Lemma sent_contiguous (i : nat) b c :
  sent !! i = Some (b, c) →
  c = Z.of_nat (length b)
  ∧ (gather_count height newHeight size width channels <$> seqZ 0 size) !! i = Some c
  ∧ (gather_prefix height newHeight size width channels <$> seqZ 0 size) !! i
    = Some (Z.of_nat (length (concat (take i sent.*1)))).
Proof.
  intros Hs. destruct (sent_counts i b c Hs) as (Hc & Hb).
  pose proof (lookup_lt_Some _ _ _ Hs) as Hi.
  split; [lia|].
  rewrite !list_lookup_fmap, lookup_seqZ_lt by lia. cbn. rewrite Z.add_0_l.
  split; [by rewrite Hc|].
  rewrite sent_prefix_length; [done|lia].
Qed.

End pipeline.

(** Lines 105-155 up to the gather, when no product overflows: the tables
    are built, every rank delivers its block, and what is left is the
    resize of line 150 and the gather itself. *)
Lemma main_output_unfold (fullImage : list byte)
    (width height channels newWidth newHeight size : Z) (filterType : string) :
  0 <= width → 0 <= channels → 1 <= height → 1 <= size →
  Z.of_nat (length fullImage) = width * height * channels →
  0 <= newHeight → width <= default_dim newWidth width →
  Z.of_nat (length fullImage) <= Cxx.INT_MAX →
  default_dim newHeight height * plan_in_rows height size 0 <= Cxx.INT_MAX →
  default_dim newWidth width * default_dim newHeight height <= Cxx.INT_MAX →
  default_dim newWidth width * default_dim newHeight height * channels
    <= Cxx.INT_MAX →
  ∃ sent : list (list byte * Z),
    main_output fullImage width height channels newWidth newHeight size filterType
    = (vec_resize fullImage
         (default_dim newWidth width * default_dim newHeight height * channels) x00
       ≫= λ buf, MPI.gatherv sent buf
         (gather_count height (default_dim newHeight height) size width channels
            <$> seqZ 0 size)
         (gather_prefix height (default_dim newHeight height) size width channels
            <$> seqZ 0 size))
    ∧ length sent = Z.to_nat size
    ∧ ∀ (i : nat) b c, sent !! i = Some (b, c) →
        Z.of_nat i < size
        ∧ c = gather_count height (default_dim newHeight height) size width channels
                (Z.of_nat i)
        ∧ Z.of_nat (length b) = c
        ∧ process_block
            (image_rows fullImage width channels
               (plan_in_start height size (Z.of_nat i))
               (plan_in_rows height size (Z.of_nat i)))
            width height channels (default_dim newHeight height)
            (plan_in_rows height size (Z.of_nat i))
            (rank_filter filterType (Z.of_nat i))
          = Some b.
Proof.
  intros Hw Hc Hh Hs Hlen Hn Hnw Himg Hprod Hbuf Hout.
  assert (0 <= default_dim newHeight height) as Hn'
    by (unfold default_dim; case_decide; lia).
  set (newW := default_dim newWidth width) in *.
  set (newH := default_dim newHeight height) in *.
  assert (width * newH <= Cxx.INT_MAX) as Hrow by nia.
  assert (width * newH * channels <= Cxx.INT_MAX) as Hblk.
  { assert (width * newH * channels <= newW * newH * channels); [|lia].
    apply Z.mul_le_mono_nonneg_r; [done|nia]. }
  assert (0 <= newW * newH) as Hpos by nia.
  assert (0 <= newW * newH * channels) as Hpos' by nia.
  destruct (sent_blocks fullImage width height channels size Hw Hc Hh Hs Hlen
              newH filterType Hn' Himg Hprod Hrow Hblk)
    as (sent & Hsent & Hslen & Hspec).
  exists sent. split; [|done].
  unfold main_output. fold newW newH.
  rewrite scatter_tables_spec by lia. cbn.
  rewrite Hsent. cbn.
  rewrite gather_tables_spec; [|done|done|done|done|done|done|lia|lia]. cbn.
  rewrite int_fits by (unfold Cxx.INT_MIN; lia). cbn.
  rewrite int_fits by (unfold Cxx.INT_MIN; lia). done.
Qed.

(** Two ranks, three rows of one byte, nothing resized: rank 0 inverts its
    two rows, rank 1 holds no filter name and returns its row as it is. *)
Example main_output_two_ranks :
  main_output [x01; x02; x03] 1 3 1 0 0 2 "invert" = Some [xfe; xfd; x03].
Proof. by vm_compute. Qed.

(** X14: with valid dimensions, a requested height that is not negative,
    a requested width that is not below the image width, and sizes and
    products that fit an [int], the buffer handed to the encoder is the
    blocks of ranks [0 .. size-1] one after the other, followed by whatever
    the resized input buffer held beyond them.  Each block is what lines
    136-139 make of the rows of its rank with the filter name that the
    rank holds: the name that was read on rank 0, the empty string on
    every other rank.  The blocks hold [width] bytes per row and channel
    whatever the requested width, and the rows that line 136 loses to
    truncation are not produced: their place keeps bytes of the input
    image or zeros. *)
Theorem main_output_layout (fullImage : list byte)
    (width height channels newWidth newHeight size : Z) (filterType : string) :
  0 <= width → 0 <= channels → 1 <= height → 1 <= size →
  Z.of_nat (length fullImage) = width * height * channels →
  0 <= newHeight → width <= default_dim newWidth width →
  Z.of_nat (length fullImage) <= Cxx.INT_MAX →
  default_dim newHeight height * plan_in_rows height size 0 <= Cxx.INT_MAX →
  default_dim newWidth width * default_dim newHeight height <= Cxx.INT_MAX →
  default_dim newWidth width * default_dim newHeight height * channels
    <= Cxx.INT_MAX →
  ∃ (blocks : list (list byte)) (resized : list byte) (outs : list Z),
    length blocks = Z.to_nat size
    ∧ (∀ (rank : nat) b, blocks !! rank = Some b →
         ∃ r, local_rows height size (Z.of_nat rank) = Some r
              ∧ process_block
                  (image_rows fullImage width channels (startRow r) (localInHeight r))
                  width height channels (default_dim newHeight height)
                  (localInHeight r) (rank_filter filterType (Z.of_nat rank))
                = Some b)
    ∧ all_out_heights height (default_dim newHeight height) size = Some outs
    ∧ Z.of_nat (length (concat blocks)) = sumZ outs * width * channels
    ∧ vec_resize fullImage
        (default_dim newWidth width * default_dim newHeight height * channels) x00
      = Some resized
    ∧ Z.of_nat (length resized)
      = default_dim newWidth width * default_dim newHeight height * channels
    ∧ main_output fullImage width height channels newWidth newHeight size filterType
      = Some (concat blocks ++ drop (length (concat blocks)) resized).
Proof.
  intros Hw Hc Hh Hs Hlen Hn Hnw Himg Hprod Hbuf Hout.
  assert (0 <= default_dim newHeight height) as Hn'
    by (unfold default_dim; case_decide; lia).
  destruct (main_output_unfold fullImage width height channels newWidth newHeight
              size filterType) as (sent & Hmain & Hslen & Hspec); [done..|].
  assert (∀ (i : nat) b c, sent !! i = Some (b, c) →
            c = gather_count height (default_dim newHeight height) size width
                  channels (Z.of_nat i)
            ∧ Z.of_nat (length b) = c) as Hcounts.
  { intros i b c Hi. by destruct (Hspec i b c Hi) as (_ & ? & ? & _). }
  pose proof (sent_total_length height (default_dim newHeight height) size width
                channels Hs sent Hslen Hcounts) as Htot.
  pose proof (prefix_out_rows_le height (default_dim newHeight height) size size
                Hh Hn' Hs ltac:(lia)) as Hsum.
  assert (0 <= default_dim newWidth width * default_dim newHeight height * channels)
    as Hsize by (apply Z.mul_nonneg_nonneg; [apply Z.mul_nonneg_nonneg|]; lia).
  exists sent.*1. eexists. eexists.
  split; [by rewrite length_fmap|]. split; [|split; [|split; [|split; [|split]]]].
  - intros rank b Hb. rewrite list_lookup_fmap in Hb.
    destruct (sent !! rank) as [[b' c]|] eqn:Hsent; [|done].
    injection Hb as ->. destruct (Hspec rank b c Hsent) as (Hr & _ & _ & Hproc).
    eexists. split; [apply local_rows_plan; lia|]. exact Hproc.
  - by apply all_out_heights_plan.
  - exact Htot.
  - unfold vec_resize. by rewrite decide_True.
  - rewrite length_app, length_take, length_replicate. lia.
  - rewrite Hmain. unfold vec_resize. rewrite decide_True by done. cbn.
    apply gatherv_contiguous.
    + intros i b c Hi.
      by apply (sent_contiguous height (default_dim newHeight height) size width
                  channels Hs sent).
    + rewrite length_app, length_take, length_replicate.
      assert (sumZ (plan_out_rows height (default_dim newHeight height) size
                      <$> seqZ 0 size) * width * channels
              <= default_dim newWidth width * default_dim newHeight height * channels);
        [|lia].
      set (total := sumZ _) in *.
      assert (0 <= width * channels) by nia.
      assert (width * channels <= default_dim newWidth width * channels) by nia.
      assert (total * (width * channels)
              <= default_dim newHeight height * (width * channels)) by nia.
      assert (default_dim newHeight height * (width * channels)
              <= default_dim newHeight height * (default_dim newWidth width * channels))
        by nia.
      lia.
Qed.

Lemma main_output_layout_witness :
  ∃ (blocks : list (list byte)) (resized : list byte),
    length blocks = Z.to_nat 2
    ∧ main_output [x01; x02; x03] 1 3 1 0 0 2 "invert"
      = Some (concat blocks ++ drop (length (concat blocks)) resized).
Proof.
  destruct (main_output_layout [x01; x02; x03] 1 3 1 0 0 2 "invert")
    as (blocks & resized & outs & Hl & _ & _ & _ & _ & _ & Hm);
    [lia|lia|lia|lia|reflexivity|lia|by vm_compute..|].
  exists blocks, resized. split; [exact Hl|exact Hm].
Defined.

Lemma concat_fmap_fmap {A B C} (f : B → C) (g : A → list B) (l : list A) :
  concat ((λ i, f <$> g i) <$> l) = f <$> concat (g <$> l).
Proof. induction l as [|x l IH]; [done|]. cbn. by rewrite fmap_app, IH. Qed.

Lemma concat_all_image_rows (fullImage : list byte) (height size width channels : Z) :
  1 <= size → 0 <= height → 0 <= width → 0 <= channels →
  Z.of_nat (length fullImage) = width * height * channels →
  concat ((λ i, image_rows fullImage width channels
                  (plan_in_start height size i) (plan_in_rows height size i))
          <$> seqZ 0 size)
  = fullImage.
Proof.
  intros Hs Hh Hw Hc Hlen.
  pose proof (concat_image_rows fullImage height size width channels
                (Z.to_nat size) Hs Hh Hw Hc) as Hcat.
  rewrite Z2Nat.id, plan_in_start_end in Hcat by lia.
  rewrite Hcat. apply take_ge. lia.
Qed.

(** The filter name of the ranks above 0 changes no byte. *)
Lemma filter_pixel_empty (b : byte) : filter_pixel EmptyString b = b.
Proof. done. Qed.

(** The rows of the ranks above 0 are the image from the first row of
    rank 1 on. *)
Lemma concat_image_rows_tail (fullImage : list byte)
    (height size width channels : Z) :
  1 <= size → 0 <= height → 0 <= width → 0 <= channels →
  Z.of_nat (length fullImage) = width * height * channels →
  concat ((λ i, image_rows fullImage width channels
                  (plan_in_start height size i) (plan_in_rows height size i))
          <$> seqZ 1 (size - 1))
  = drop (Z.to_nat (plan_in_rows height size 0 * width * channels)) fullImage.
Proof.
  intros Hs Hh Hw Hc Hlen.
  pose proof (concat_all_image_rows fullImage height size width channels
                Hs Hh Hw Hc Hlen) as Hall.
  rewrite (seqZ_cons 0 size) in Hall by lia. cbn in Hall.
  unfold image_rows at 1 in Hall.
  rewrite plan_in_start_0 in Hall by done.
  change (Z.to_nat (0 * width * channels)) with O in Hall. rewrite drop_0 in Hall.
  apply (app_inv_head
           (take (Z.to_nat (plan_in_rows height size 0 * width * channels))
                 fullImage)).
  rewrite take_drop. by replace (size - 1) with (Z.pred size) by lia.
Qed.

(** Keeping the height, lines 136-139 filter the block and nothing else. *)
Lemma process_block_same_height (localIn : list byte)
    (width height channels localInHeight : Z) (filterType : string) :
  0 <= width → 0 <= channels → 1 <= height → 0 <= localInHeight <= height →
  Z.of_nat (length localIn) = width * localInHeight * channels →
  Z.of_nat (length localIn) <= Cxx.INT_MAX →
  width * localInHeight <= Cxx.INT_MAX →
  height * localInHeight <= Cxx.INT_MAX →
  process_block localIn width height channels height localInHeight filterType
  = Some (filter_pixel filterType <$> localIn).
Proof.
  intros Hw Hc Hh Hl Hlen Hdata Hrow Hprod. unfold process_block.
  rewrite local_out_height_fits by lia. cbn.
  replace (height * localInHeight) with (localInHeight * height) by lia.
  rewrite Z.div_mul by lia.
  rewrite resize_rows_id by (done || nia). cbn. by apply apply_filter_map.
Qed.

(** X15: when neither dimension is changed (each request is 0 or the
    original value) and the sizes and products fit an [int], no row is
    lost, moved or left stale, but the filter reaches the rows of rank 0
    only: the name of the filter is not sent to the other ranks, which
    leave their rows as they are.  The buffer handed to the encoder is the
    rows of rank 0 with the filter applied to every byte, followed by the
    rest of the image unchanged. *)
Theorem main_output_no_resize (fullImage : list byte)
    (width height channels newWidth newHeight size : Z) (filterType : string) :
  0 <= width → 0 <= channels → 1 <= height → 1 <= size →
  Z.of_nat (length fullImage) = width * height * channels →
  newWidth = 0 ∨ newWidth = width →
  newHeight = 0 ∨ newHeight = height →
  Z.of_nat (length fullImage) <= Cxx.INT_MAX →
  width * height <= Cxx.INT_MAX →
  height * plan_in_rows height size 0 <= Cxx.INT_MAX →
  main_output fullImage width height channels newWidth newHeight size filterType
  = Some ((filter_pixel filterType
             <$> take (Z.to_nat (plan_in_rows height size 0 * width * channels))
                      fullImage)
          ++ drop (Z.to_nat (plan_in_rows height size 0 * width * channels))
                  fullImage).
Proof.
  intros Hw Hc Hh Hs Hlen Hnw Hnh Himg Hrow Hprod.
  assert (default_dim newWidth width = width) as Hdw
    by (unfold default_dim; case_decide; lia).
  assert (default_dim newHeight height = height) as Hdh
    by (unfold default_dim; case_decide; lia).
  destruct (main_output_unfold fullImage width height channels newWidth newHeight
              size filterType) as (sent & -> & Hslen & Hspec);
    [done|done|done|done|done|lia|lia|done|by rewrite Hdh|by rewrite Hdw, Hdh
    |rewrite Hdw, Hdh; lia|].
  rewrite Hdw, Hdh in *.
  assert (∀ (i : nat) b c, sent !! i = Some (b, c) →
            c = gather_count height height size width channels (Z.of_nat i)
            ∧ Z.of_nat (length b) = c) as Hcounts.
  { intros i b c Hi. by destruct (Hspec i b c Hi) as (_ & ? & ? & _). }
  assert (sent.*1
          = (λ i, filter_pixel (rank_filter filterType i)
                    <$> image_rows fullImage width channels
                          (plan_in_start height size i) (plan_in_rows height size i))
            <$> seqZ 0 size) as Hblocks.
  { apply list_eq. intros i. rewrite !list_lookup_fmap.
    destruct (decide (i < length sent)%nat) as [Hi|Hi].
    - destruct (lookup_lt_is_Some_2 sent i Hi) as [[b c] Hsent].
      destruct (Hspec i b c Hsent) as (Hr & _ & _ & Hproc).
      rewrite Hsent, lookup_seqZ_lt by done. cbn. rewrite Z.add_0_l.
      destruct (rank_rows_fit fullImage width height channels size Hw Hc Hh Hs Hlen
                  (Z.of_nat i)) as (H1 & H2 & H3); [lia|].
      pose proof (plan_in_rows_nonneg height size (Z.of_nat i) ltac:(lia)
                    ltac:(lia)).
      pose proof (plan_in_rows_le_height height size (Z.of_nat i) ltac:(lia)
                    ltac:(lia) ltac:(lia)).
      pose proof (plan_in_rows_le_first height size (Z.of_nat i) ltac:(lia)
                    ltac:(lia)).
      rewrite process_block_same_height in Hproc;
        [congruence|done|done|done|lia| | |nia|nia].
      + rewrite image_rows_length by done. lia.
      + rewrite image_rows_length by done. lia.
    - rewrite lookup_ge_None_2, lookup_seqZ_ge by lia. done. }
  assert (concat sent.*1
          = (filter_pixel filterType
               <$> take (Z.to_nat (plan_in_rows height size 0 * width * channels))
                        fullImage)
            ++ drop (Z.to_nat (plan_in_rows height size 0 * width * channels))
                    fullImage) as Hconcat.
  { rewrite Hblocks, (seqZ_cons 0 size) by lia. cbn.
    unfold image_rows at 1. rewrite plan_in_start_0 by lia.
    change (Z.to_nat (0 * width * channels)) with O. rewrite drop_0.
    f_equal.
    rewrite <- (concat_image_rows_tail fullImage height size width channels)
      by (done || lia).
    replace (Z.pred size) with (size - 1) by lia. f_equal.
    apply list_fmap_ext. intros j i Hi%lookup_seqZ.
    unfold rank_filter. rewrite decide_False by lia.
    rewrite <- (list_fmap_id (image_rows _ _ _ _ _)) at 2.
    apply list_fmap_ext. intros. apply filter_pixel_empty. }
  assert (length (concat sent.*1) = length fullImage) as Htot.
  { rewrite Hconcat, length_app, length_fmap, <- length_app.
    by rewrite take_drop. }
  unfold vec_resize. rewrite decide_True by lia. cbn.
  erewrite gatherv_contiguous.
  - rewrite (drop_ge (take _ fullImage ++ _))
      by (rewrite Htot, length_app, length_take, length_replicate; lia).
    by rewrite app_nil_r, Hconcat.
  - intros i b c Hi.
    by apply (sent_contiguous height height size width channels Hs sent).
  - rewrite Htot, length_app, length_take, length_replicate. lia.
Qed.

Lemma main_output_no_resize_witness :
  main_output [x00; x00; x00; x00] 2 2 1 0 0 2 "invert"
  = Some [xff; xff; x00; x00].
Proof.
  apply (main_output_no_resize [x00; x00; x00; x00] 2 2 1 0 0 2 "invert");
    [lia|lia|lia|lia|reflexivity|by left|by left|by vm_compute..].
Defined.

(** X16: the scatter hands out the image without loss or overlap: with
    the tables of lines 123-131 every rank receives exactly its
    [localInBytes] bytes, and the blocks received by ranks [0 .. size-1],
    put one after the other, are the image. *)
Theorem scatter_delivers_image (fullImage : list byte)
    (width height channels size : Z) :
  0 <= width → 0 <= channels → 1 <= height → 1 <= size →
  Z.of_nat (length fullImage) = width * height * channels →
  ∃ (sendCounts displs : list Z) (localIns : list (list byte)),
    scatter_tables height size width channels = Some (sendCounts, displs)
    ∧ mapM (λ rank,
              r ← local_rows height size rank;
              localIn ← Cxx.vec_make (localInHeight r * width * channels) x00;
              MPI.scatterv fullImage sendCounts displs rank localIn
                (localInHeight r * width * channels))
           (seqZ 0 size) = Some localIns
    ∧ (∀ (rank : nat) localIn, localIns !! rank = Some localIn →
         ∃ r, local_rows height size (Z.of_nat rank) = Some r
              ∧ Z.of_nat (length localIn) = localInHeight r * width * channels)
    ∧ concat localIns = fullImage.
Proof.
  intros Hw Hc Hh Hs Hlen. eexists _, _, _.
  split; [apply scatter_tables_spec; lia|]. split; [|split].
  - apply (mapM_total _
      (λ i, image_rows fullImage width channels
              (plan_in_start height size i) (plan_in_rows height size i))).
    intros rank Hr%elem_of_seqZ.
    destruct (rank_rows_fit fullImage width height channels size Hw Hc Hh Hs Hlen
                rank) as (H1 & H2 & H3); [lia|].
    rewrite local_rows_plan by lia. cbn.
    unfold Cxx.vec_make. rewrite decide_True by done. cbn.
    apply scatterv_rows; [done..|lia].
  - intros rank localIn Hl. rewrite list_lookup_fmap in Hl.
    destruct (seqZ 0 size !! rank) as [i|] eqn:Hi; [|done].
    apply lookup_seqZ in Hi as [-> Hi]. rewrite Z.add_0_l in Hl.
    injection Hl as <-.
    destruct (rank_rows_fit fullImage width height channels size Hw Hc Hh Hs Hlen
                (Z.of_nat rank)) as (H1 & H2 & H3); [lia|].
    eexists. split; [apply local_rows_plan; lia|]. cbn.
    by apply image_rows_length.
  - apply concat_all_image_rows; lia.
Qed.

Lemma scatter_delivers_image_witness :
  ∃ (sendCounts displs : list Z) (localIns : list (list byte)),
    scatter_tables 3 2 1 1 = Some (sendCounts, displs)
    ∧ concat localIns = [x01; x02; x03].
Proof.
  destruct (scatter_delivers_image [x01; x02; x03] 1 3 1 2)
    as (sc & ds & ls & Ht & _ & _ & Hc); [lia|lia|lia|lia|reflexivity|].
  exists sc, ds, ls. split; [exact Ht|exact Hc].
Defined.

(** X17: on a single process, with the width kept and sizes and products
    that fit an [int], the program computes what the two functions compute
    on the whole image: the buffer handed to the encoder is [resize_rows]
    of the image to the requested height followed by [apply_filter], and
    no row is lost. *)
Theorem main_output_single_process (fullImage : list byte)
    (width height channels newWidth newHeight : Z) (filterType : string) :
  0 <= width → 0 <= channels → 1 <= height →
  Z.of_nat (length fullImage) = width * height * channels →
  0 <= newHeight → newWidth = 0 ∨ newWidth = width →
  Z.of_nat (length fullImage) <= Cxx.INT_MAX →
  default_dim newHeight height * height <= Cxx.INT_MAX →
  width * default_dim newHeight height <= Cxx.INT_MAX →
  width * default_dim newHeight height * channels <= Cxx.INT_MAX →
  main_output fullImage width height channels newWidth newHeight 1 filterType
  = (resize_rows fullImage width height (default_dim newHeight height) channels
       ≫= λ r, apply_filter r width (default_dim newHeight height) channels filterType)
  ∧ is_Some (main_output fullImage width height channels newWidth newHeight 1
               filterType).
Proof.
  intros Hw Hc Hh Hlen Hn Hnw Himg Hprod Hrow Hout.
  assert (default_dim newWidth width = width) as Hdw
    by (unfold default_dim; case_decide; lia).
  assert (0 <= default_dim newHeight height) as Hn'
    by (unfold default_dim; case_decide; lia).
  assert (plan_in_start height 1 0 = 0) as Hstart by (apply plan_in_start_0; lia).
  assert (plan_in_rows height 1 0 = height) as Hrows.
  { unfold plan_in_rows. rewrite Z.div_1_r, Z.mod_1_r.
    rewrite decide_False by lia. lia. }
  destruct (main_output_unfold fullImage width height channels newWidth newHeight
              1 filterType) as (sent & Hmain & Hslen & Hspec);
    [done|done|done|lia|done|done|lia|done|by rewrite Hrows|by rewrite Hdw..|].
  rewrite Hdw in Hmain.
  assert (∀ (i : nat) b c, sent !! i = Some (b, c) →
            c = gather_count height (default_dim newHeight height) 1 width
                  channels (Z.of_nat i)
            ∧ Z.of_nat (length b) = c) as Hcounts.
  { intros i b c Hi. by destruct (Hspec i b c Hi) as (_ & ? & ? & _). }
  destruct sent as [|[b c] [|? ?]]; [done| |done].
  destruct (Hspec O b c eq_refl) as (_ & Hcnt & Hb & Hproc).
  change (Z.of_nat 0) with 0 in *.
  assert (c = default_dim newHeight height * width * channels) as Hc'.
  { rewrite Hcnt. unfold gather_count, plan_out_rows. rewrite Hrows.
    by rewrite Z.div_mul by lia. }
  rewrite Hstart, Hrows in Hproc.
  assert (image_rows fullImage width channels 0 height = fullImage) as Himg'.
  { unfold image_rows. rewrite Z.mul_0_l. change (Z.to_nat 0) with O.
    rewrite drop_0. apply take_ge. lia. }
  rewrite Himg' in Hproc. unfold process_block in Hproc.
  rewrite local_out_height_fits, Z.div_mul in Hproc by lia. cbn in Hproc.
  change (rank_filter filterType 0) with filterType in Hproc.
  rewrite Hproc, Hmain. unfold vec_resize.
  rewrite decide_True
    by (apply Z.mul_nonneg_nonneg; [apply Z.mul_nonneg_nonneg|]; lia).
  cbn. erewrite gatherv_contiguous.
  - cbn. rewrite !app_nil_r. rewrite drop_ge; [by rewrite app_nil_r|].
    rewrite length_app, length_take, length_replicate. lia.
  - intros i b' c' Hi.
    by apply (sent_contiguous height (default_dim newHeight height) 1 width
                channels ltac:(lia) [(b, c)]).
  - cbn. rewrite app_nil_r, length_app, length_take, length_replicate. lia.
Qed.

Lemma main_output_single_process_witness :
  is_Some (main_output [x01; x02; x03; x04] 2 2 1 0 3 1 "invert").
Proof.
  apply (main_output_single_process [x01; x02; x03; x04] 2 2 1 0 3 "invert");
    [lia|lia|lia|reflexivity|lia|by left|by vm_compute..].
Defined.

(** X18: the blocks that come back hold [width] bytes per row and channel,
    but the receive buffer is sized with the requested width.  Whenever
    the bytes of the output rows of all ranks exceed
    [newWidth * newHeight * channels] (as they do when the requested width
    is smaller than the image width and no row is lost) the gather stores
    outside the buffer, or the buffer cannot be sized at all: the program
    has no defined result. *)
Theorem main_output_overflow (fullImage : list byte)
    (width height channels newWidth newHeight size : Z) (filterType : string)
    (outs : list Z) :
  0 <= width → 0 <= channels → 1 <= height → 1 <= size →
  Z.of_nat (length fullImage) = width * height * channels →
  0 <= newHeight →
  all_out_heights height (default_dim newHeight height) size = Some outs →
  default_dim newWidth width * default_dim newHeight height * channels
    < sumZ outs * width * channels →
  main_output fullImage width height channels newWidth newHeight size filterType
  = None.
Proof.
  intros Hw Hc Hh Hs Hlen Hn Houts Hover.
  assert (0 <= default_dim newHeight height) as Hn'
    by (unfold default_dim; case_decide; lia).
  apply all_out_heights_sound in Houts; [subst outs|done..].
  unfold main_output. rewrite scatter_tables_spec by lia. cbn.
  destruct (mapM _ _) as [sent|] eqn:Hsent; [|done]. cbn.
  destruct (gather_tables _ _ _ _ _) as [[rc rd]|] eqn:Hg; [|done]. cbn.
  apply gather_tables_sound in Hg as [-> ->]; [|done..].
  destruct (Cxx.int _) as [n|] eqn:Hn1; [|done].
  apply int_Some in Hn1 as [-> _]. cbn.
  destruct (Cxx.int _) as [n|] eqn:Hn2; [|done].
  apply int_Some in Hn2 as [-> _]. cbn.
  destruct (vec_resize _ _ _) as [buf|] eqn:Hbuf; [|done]. cbn.
  pose proof (vec_resize_length _ _ _ _ Hbuf) as Hblen.
  assert (0 <= default_dim newWidth width * default_dim newHeight height * channels)
    as Hsize by (unfold vec_resize in Hbuf; by case_decide).
  pose proof (length_mapM _ _ _ Hsent) as Hslen. rewrite length_seqZ in Hslen.
  assert (∀ (i : nat) b c, sent !! i = Some (b, c) →
            c = gather_count height (default_dim newHeight height) size width
                  channels (Z.of_nat i)
            ∧ Z.of_nat (length b) = c) as Hcounts.
  { intros i b c Hi. apply mapM_Some_1 in Hsent.
    destruct (Forall2_lookup_r _ _ _ _ _ Hsent Hi) as (rank & Hrank & Hmain).
    apply lookup_seqZ in Hrank as [-> Hlt]. rewrite Z.add_0_l in Hmain.
    by apply rank_main_sound in Hmain. }
  pose proof (sent_total_length height (default_dim newHeight height) size width
                channels Hs sent (eq_sym Hslen) Hcounts) as Htot.
  apply gatherv_overflow.
  - intros i b c Hi.
    by apply (sent_contiguous height (default_dim newHeight height) size width
                channels Hs sent).
  - lia.
Qed.

Lemma main_output_overflow_witness :
  main_output [x01; x02] 2 1 1 1 0 1 "invert" = None.
Proof.
  apply (main_output_overflow [x01; x02] 2 1 1 1 0 1 "invert" [1]);
    [lia|lia|lia|lia|reflexivity|lia|reflexivity|by vm_compute].
Defined.
